(** * colored_logging: the record buffer and the emission pipeline

    A shallow embedding of [buffer.go] and [log.go], and what holds of them:
    the buffer and its reset, [AppendInt] as its line 26 has it, the
    severity methods with quiet mode and the debug switch, the call-stack
    dump, the two passes of a logger with a file, and [WithLogFile] on a
    file that cannot be opened.

    - Go's [int] is a 64-bit two's-complement integer: a [Z] with the
      wrap-around written out ([int_wrap]).
    - A [byte] is a [Z] in [0, 256); the conversion [byte(x)] keeps the low
      eight bits ([byte_of_int]).
    - A [Buffer] is a Go slice: a reference to a backing array kept in a
      store of arrays, and a logical length.  The capacity is the length of
      the backing array.  Two slice headers may refer to one array (the
      logger copy made by [Output] does).
    - A run-time panic (index out of range) is an outcome of its own.
    - The call stack is a list of frames; the frame [runtime.Caller] reports
      for itself, when it is asked to skip nothing, is the runtime's
      ([Runtime]). *)

From Stdlib Require Import ZArith String Ascii Lia Bool.
From stdpp Require Import base option list gmap.

Local Open Scope Z_scope.

(** ** Integers, bytes, text *)

Definition int_wrap (x : Z) : Z := (x + 2 ^ 63) `mod` 2 ^ 64 - 2 ^ 63.

Definition byte_of_int (x : Z) : Z := x `mod` 256.

(** The bytes of a string literal. *)
Definition bytes_of (s : string) : list Z :=
  (λ a, Z.of_nat (nat_of_ascii a)) <$> list_ascii_of_string s.

Definition ch_zero : Z := 48.     (* '0' *)
Definition ch_slash : Z := 47.    (* '/' *)
Definition ch_space : Z := 32.    (* ' ' *)
Definition ch_colon : Z := 58.    (* ':' *)
Definition ch_newline : Z := 10.  (* '\n' *)
Definition ch_tab : Z := 9.       (* '\t' *)
Definition ch_escape : Z := 27.   (* '\033' *)

(** ** Outcomes *)

Inductive run (A : Type) : Type :=
| Ret (a : A)
| IndexOutOfRange (i : Z)   (* panic: index out of range [i] with length 8 *)
| Unfinished.               (* the step budget of a modelled loop ran out *)
Arguments Ret {A} a.
Arguments IndexOutOfRange {A} i.
Arguments Unfinished {A}.

#[global] Instance run_ret : MRet run := λ A a, Ret a.

#[global] Instance run_bind : MBind run := λ A B k m,
  match m with
  | Ret a => k a
  | IndexOutOfRange i => IndexOutOfRange i
  | Unfinished => Unfinished
  end.

(** ** The store of backing arrays and the slice header *)

(* The buffer, lines 3 to 9 of [buffer.go]. *)
Record Buffer := mkBuffer {
  data : option nat;   (* the backing array; [None] is the nil slice *)
  len : nat            (* the logical length *)
}.

Definition nil_Buffer : Buffer := mkBuffer None 0.

Definition backing (h : gmap nat (list Z)) (b : Buffer) : list Z :=
  match data b with
  | Some p => default [] (h !! p)
  | None => []
  end.

Definition cap (h : gmap nat (list Z)) (b : Buffer) : nat := length (backing h b).

(** [len b <= cap b], as for every slice Go builds. *)
Definition slice_ok (h : gmap nat (list Z)) (b : Buffer) : Prop :=
  (len b ≤ cap h b)%nat.

(** [func (b Buffer) Bytes() []byte]: the first [len] bytes of the array. *)
Definition Bytes (s : gmap nat (list Z) * Buffer) : list Z :=
  take (len s.2) (backing s.1 s.2).

(** Buffer methods run on a slice header and the store of arrays; they may
    panic. *)
Definition fmt (A : Type) : Type :=
  gmap nat (list Z) * Buffer → run (A * (gmap nat (list Z) * Buffer)).

#[global] Instance fmt_ret : MRet fmt := λ A a s, Ret (a, s).

#[global] Instance fmt_bind : MBind fmt := λ A B k m s,
  match m s with
  | Ret (a, s') => k a s'
  | IndexOutOfRange i => IndexOutOfRange i
  | Unfinished => Unfinished
  end.

(** [if c { m }] *)
Definition when (c : bool) (m : fmt ()) : fmt () := if c then m else mret ().

Section Package.

(** [buffer.go] line 26 reads [val].  [AppendInt] declares no [val]: its
    integer parameter is [remaining], which every other line of the loop
    reads and line 28 assigns.  Neither [buffer.go] nor [log.go] declares a
    [val]; in Go the name can then only denote a package-level integer of
    another file of the package.  It is a parameter here, and no fact below
    assumes anything of it that it does not state. *)
Variable val : Z.

(** The capacity the runtime picks when [append] has to reallocate: old
    capacity and needed length in, new capacity out.  [append] never
    returns less than the needed length. *)
Variable growslice : nat → nat → nat.

(** [append(s, d...)]: in place while the capacity suffices, otherwise into
    a fresh array that holds the old content. *)
Definition append (h : gmap nat (list Z)) (b : Buffer) (d : list Z)
  : gmap nat (list Z) * Buffer :=
  let n := (len b + length d)%nat in
  if decide (n ≤ cap h b)%nat then
    match data b with
    | Some p =>
        (<[p := take (len b) (backing h b) ++ d ++ drop n (backing h b)]> h,
         mkBuffer (Some p) n)
    | None => (h, b)
    end
  else
    let p := fresh (dom h) in
    let c := Nat.max n (growslice (cap h b) n) in
    (<[p := take (len b) (backing h b) ++ d ++ replicate (c - n) 0]> h,
     mkBuffer (Some p) n).

(** [func (b *Buffer) Reset()]: the slice is cut back to length 0 over the
    same array, which keeps its content. *)
Definition Reset : fmt () := λ s, Ret ((), (s.1, mkBuffer (data s.2) 0)).

(** [func (b *Buffer) Append(data []byte)] *)
Definition Append (d : list Z) : fmt () := λ s, Ret ((), append s.1 s.2 d).

(** [func (b *Buffer) AppendByte(data byte)] *)
Definition AppendByte (x : Z) : fmt () := λ s, Ret ((), append s.1 s.2 [x]).

(** [repr[i] = x] on the scratch array, with Go's bounds check. *)
Definition store (repr : list Z) (i : Z) (x : Z) : run (list Z) :=
  if decide (0 ≤ i < Z.of_nat (length repr))
  then Ret (<[Z.to_nat i := x]> repr)
  else IndexOutOfRange i.

(** The loop of [AppendInt], lines 25 to 31.  Every turn stores at
    [reprCount] and decrements it, so a ninth turn is never completed on an
    array of eight: the budget of nine turns is never used up
    ([AppendInt_repr_finishes]). *)
Fixpoint AppendInt_loop (fuel : nat) (repr : list Z)
    (reprCount remaining width : Z) : run (list Z * Z * Z) :=
  if (10 <=? remaining) || (1 <? width) then
    match fuel with
    | O => Unfinished
    | S fuel' =>
        let reminder := int_wrap (val ÷ 10) in
        repr' ← store repr reprCount
          (byte_of_int
             (int_wrap (int_wrap (ch_zero + remaining) - int_wrap (reminder * 10))));
        AppendInt_loop fuel' repr' (reprCount - 1) reminder (int_wrap (width - 1))
    end
  else Ret (repr, reprCount, remaining).

(** The bytes [AppendInt] hands to [Append]: [repr[reprCount:]]. *)
Definition AppendInt_repr (remaining width : Z) : run (list Z) :=
  '(repr, reprCount, remaining) ← AppendInt_loop 9 (replicate 8 0) 7 remaining width;
  repr' ← store repr reprCount (byte_of_int (int_wrap (ch_zero + remaining)));
  Ret (drop (Z.to_nat reprCount) repr').

(** [func (b *Buffer) AppendInt(remaining int, width int)] *)
Definition AppendInt (remaining width : Z) : fmt () := λ s,
  digits ← AppendInt_repr remaining width;
  Append digits s.

(** A run of [Append] and [AppendByte] calls on one buffer. *)
Inductive buffer_call :=
| CallAppend (d : list Z)
| CallAppendByte (x : Z).

Definition call (c : buffer_call) : fmt () :=
  match c with
  | CallAppend d => Append d
  | CallAppendByte x => AppendByte x
  end.

Fixpoint calls (cs : list buffer_call) : fmt () :=
  match cs with
  | [] => mret ()
  | c :: cs' => call c;; calls cs'
  end.

Definition appended (c : buffer_call) : list Z :=
  match c with
  | CallAppend d => d
  | CallAppendByte x => [x]
  end.

(** ** [log.go] *)

(** *** The colour escapes *)

(** Modelled from the spec: [ColorBuffer], its methods [Off], [Blue],
    [Orange], [Gray] and the functions [Red], [Orange], [Green], [Purple],
    [Cyan] are declared in a file of the package that is not at hand.
    Section 6 of the spec: the colour variant wraps a segment in an escape
    sequence of its colour and puts a reset sequence after it.  The escape
    sequences themselves are parameters.  [ColorBuffer] embeds [Buffer]
    ([log.go] line 299 writes [l.buf.Buffer]), so the [Buffer] methods are
    its own. *)
Record Palette := mkPalette {
  colorOff : list Z;
  colorRed : list Z;
  colorGreen : list Z;
  colorOrange : list Z;
  colorBlue : list Z;
  colorPurple : list Z;
  colorCyan : list Z;
  colorGray : list Z
}.

Variable pal : Palette.

Definition mixer (d esc : list Z) : list Z := esc ++ d ++ colorOff pal.
Definition Red (d : list Z) : list Z := mixer d (colorRed pal).
Definition Green (d : list Z) : list Z := mixer d (colorGreen pal).
Definition Orange (d : list Z) : list Z := mixer d (colorOrange pal).
Definition Purple (d : list Z) : list Z := mixer d (colorPurple pal).
Definition Cyan (d : list Z) : list Z := mixer d (colorCyan pal).

Definition cb_Off : fmt () := Append (colorOff pal).
Definition cb_Blue : fmt () := Append (colorBlue pal).
Definition cb_Orange : fmt () := Append (colorOrange pal).
Definition cb_Gray : fmt () := Append (colorGray pal).

(** *** Prefixes, lines 35 to 78 *)

Record Prefix := mkPrefix {
  Plain : list Z;
  Color : list Z;
  File : bool;
  Callstack : bool
}.

Definition plainFatal : list Z := bytes_of "[FATAL] ".
Definition plainError : list Z := bytes_of "[ERROR] ".
Definition plainWarn : list Z := bytes_of "[WARN]  ".
Definition plainInfo : list Z := bytes_of "[INFO]  ".
Definition plainDebug : list Z := bytes_of "[DEBUG] ".
Definition plainTrace : list Z := bytes_of "[TRACE] ".

Definition FatalPrefix : Prefix := mkPrefix plainFatal (Red plainFatal) true false.
Definition ErrorPrefix : Prefix := mkPrefix plainError (Red plainError) true false.
Definition WarnPrefix : Prefix := mkPrefix plainWarn (Orange plainWarn) false false.
Definition InfoPrefix : Prefix := mkPrefix plainInfo (Green plainInfo) false false.
Definition DebugPrefix : Prefix := mkPrefix plainDebug (Purple plainDebug) true false.
Definition TracePrefix : Prefix := mkPrefix plainTrace (Cyan plainTrace) false true.

(** *** The logger, lines 20 to 30 *)

(** Writers ([FdWriter], [*os.File]) are named by numbers.  The mutex [mu]
    has no field: the calls modelled here run one after the other. *)
Record Logger := mkLogger {
  depth : Z;
  color : bool;
  out : nat;
  debug : bool;
  timestamp : bool;
  quiet : bool;
  logFile : option nat;
  buf : Buffer
}.

Definition with_color (c : bool) (l : Logger) : Logger :=
  mkLogger (depth l) c (out l) (debug l) (timestamp l) (quiet l) (logFile l) (buf l).
Definition with_depth (d : Z) (l : Logger) : Logger :=
  mkLogger d (color l) (out l) (debug l) (timestamp l) (quiet l) (logFile l) (buf l).
Definition with_out (o : nat) (l : Logger) : Logger :=
  mkLogger (depth l) (color l) o (debug l) (timestamp l) (quiet l) (logFile l) (buf l).
Definition with_debug (d : bool) (l : Logger) : Logger :=
  mkLogger (depth l) (color l) (out l) d (timestamp l) (quiet l) (logFile l) (buf l).
Definition with_timestamp (t : bool) (l : Logger) : Logger :=
  mkLogger (depth l) (color l) (out l) (debug l) t (quiet l) (logFile l) (buf l).
Definition with_logFile (f : option nat) (l : Logger) : Logger :=
  mkLogger (depth l) (color l) (out l) (debug l) (timestamp l) (quiet l) f (buf l).
Definition with_buf (b : Buffer) (l : Logger) : Logger :=
  mkLogger (depth l) (color l) (out l) (debug l) (timestamp l) (quiet l) (logFile l) b.

(** [New]; [is_terminal] is what [term.IsTerminal(int(out.Fd()))] answers. *)
Definition New (is_terminal : bool) (o : nat) : Logger :=
  mkLogger 0 is_terminal o false true false None nil_Buffer.

Definition WithColor (l : Logger) : Logger := with_color true l.
Definition Depth (d : Z) (l : Logger) : Logger := with_depth d l.
Definition IsColored (l : Logger) : bool := color l.
Definition WithoutColor (l : Logger) : Logger := with_color false l.
Definition WithDebug (l : Logger) : Logger := with_debug true l.
Definition WithoutDebug (l : Logger) : Logger := with_debug false l.
Definition IsDebug (l : Logger) : bool := debug l.
Definition WithTimestamp (l : Logger) : Logger := with_timestamp true l.
Definition WithoutTimestamp (l : Logger) : Logger := with_timestamp false l.
Definition IsQuiet (l : Logger) : bool := quiet l.

(** *** The world outside the logger *)

Record Time := mkTime {
  t_year : Z; t_month : Z; t_day : Z;
  t_hour : Z; t_min : Z; t_sec : Z
}.

(** A frame of the call stack as [runtime.Caller] reports it: the name of the
    function, the path of its file, and the line the frame is executing. *)
Record Frame := mkFrame {
  fr_func : list Z;
  fr_file : list Z;
  fr_line : Z
}.

Inductive error := WriteError (writer : nat).

Record World := mkWorld {
  mem : gmap nat (list Z);          (* the backing arrays *)
  clock : nat → Time;               (* what successive [time.Now()] return *)
  ticks : nat;                      (* how many of them were read *)
  broken : nat → bool;              (* writers whose [Write] returns an error *)
  opens : list Z → nat + list Z;    (* [os.OpenFile]: a file, or an error text *)
  written : list (nat * list Z);    (* the [Write] calls made, oldest first *)
  exited : option Z                 (* the status of [os.Exit], once called *)
}.

Definition with_mem (h : gmap nat (list Z)) (w : World) : World :=
  mkWorld h (clock w) (ticks w) (broken w) (opens w) (written w) (exited w).

(** [time.Now()] *)
Definition time_Now (w : World) : Time * World :=
  (clock w (ticks w),
   mkWorld (mem w) (clock w) (S (ticks w)) (broken w) (opens w) (written w) (exited w)).

(** [o.Write(p)]: the call is recorded whether or not it reports an error. *)
Definition Write (o : nat) (p : list Z) (w : World) : option error * World :=
  (if broken w o then Some (WriteError o) else None,
   mkWorld (mem w) (clock w) (ticks w) (broken w) (opens w)
     (written w ++ [(o, p)]) (exited w)).

(** [os.Exit(code)] *)
Definition os_Exit (code : Z) (w : World) : World :=
  mkWorld (mem w) (clock w) (ticks w) (broken w) (opens w) (written w) (Some code).

(** [fmt.Sprintln]: the operands, each already in its default format, with
    a space between two of them and a newline at the end. *)
Fixpoint spaced (vs : list (list Z)) : list Z :=
  match vs with
  | [] => []
  | [v] => v
  | v :: vs' => v ++ ch_space :: spaced vs'
  end.

Definition Sprintln (vs : list (list Z)) : list Z := spaced vs ++ [ch_newline].

(** [fmt.Sprintf]: the expansion of a format, a function of the library. *)
Variable Sprintf : list Z → list (list Z) → list Z.

(** [filepath.Base] on slash-separated paths. *)
Fixpoint drop_separators (p : list Z) : list Z :=
  match p with
  | x :: p' => if decide (x = ch_slash) then drop_separators p' else p
  | [] => []
  end.

Fixpoint last_element (p acc : list Z) : list Z :=
  match p with
  | [] => acc
  | x :: p' =>
      if decide (x = ch_slash) then last_element p' [] else last_element p' (acc ++ [x])
  end.

Definition filepath_Base (p : list Z) : list Z :=
  if decide (p = []) then bytes_of "."
  else
    let e := last_element (reverse (drop_separators (reverse p))) [] in
    if decide (e = []) then [ch_slash] else e.

(** What the Go runtime reports of itself: the frame of [runtime.Caller],
    in [extern.go] of the installation, at the line where it asks for the
    callers. *)
Class Runtime := { Caller_frame : Frame }.

Context {rt : Runtime}.

(** [runtime.Caller(skip)] on a stack whose frame 0 is the function that
    calls it.  It asks for the frame [skip + 1] frames up from its own, an
    [int] as [skip] is.  A count that is not positive, from a negative
    [skip] or from one that wraps around, skips nothing: the frame reported
    is the one of [runtime.Caller] itself, with [ok] true.  A frame past
    the top of the stack is not there. *)
Definition runtime_Caller (stack : list Frame) (skip : Z) : option Frame :=
  let n := int_wrap (skip + 1) in
  if decide (0 < n) then stack !! Z.to_nat (n - 1) else Some Caller_frame.

(** The frames of the package's own functions: [runtime.FuncForPC] names
    them by package and receiver, and their file is [log.go] in the
    directory the package was built from. *)
Variable pkgdir : list Z.

Definition log_go : list Z := pkgdir ++ bytes_of "/log.go".

Definition in_getOccurrence (line : Z) : Frame :=
  mkFrame (bytes_of "colored_logging.(*Logger).getOccurrence") log_go line.
Definition in_output (line : Z) : Frame :=
  mkFrame (bytes_of "colored_logging.(*Logger).output") log_go line.
Definition in_Output (line : Z) : Frame :=
  mkFrame (bytes_of "colored_logging.(*Logger).Output") log_go line.
Definition in_method (name : string) (line : Z) : Frame :=
  mkFrame (bytes_of "colored_logging.(*Logger)." ++ bytes_of name) log_go line.

(** *** The emission *)

(** [getOccurrence], lines 303 to 316.  [callers] is the stack above it:
    its frame 0 is the function that called [getOccurrence]. *)
Definition getOccurrence (l : Logger) (callers : list Frame) (additionalDepth : Z)
  : list Z * list Z * Z * bool :=
  match runtime_Caller (in_getOccurrence 307 :: callers)
          (int_wrap (int_wrap (depth l + 2) + additionalDepth)) with
  | None => (bytes_of "<unknown file>", bytes_of "<unknown function>", 0, false)
  | Some fr => (filepath_Base (fr_file fr), fr_func fr, fr_line fr, true)
  end.

(** The call-stack loop of [output], lines 274 to 296: [for i := range 50]
    with [n] turns left and [i] the loop variable. *)
Fixpoint callstack_loop (l : Logger) (callers : list Frame) (n : nat) (i : Z) : fmt () :=
  match n with
  | O => mret ()
  | S n' =>
      let '(file, fn, line, ok) := getOccurrence l (in_output 277 :: callers) i in
      if negb ok then mret ()
      else
        when (color l) cb_Gray;;
        AppendByte ch_tab;;
        Append fn;;
        AppendByte ch_colon;;
        Append file;;
        AppendByte ch_colon;;
        AppendInt line 0;;
        AppendByte ch_newline;;
        when (color l) cb_Off;;
        callstack_loop l callers n' (i + 1)
  end.

(** The formatting of one record into [l.buf], lines 217 to 297. *)
Definition format_record (l : Logger) (prefix : Prefix) (now : Time)
    (data : list Z) (callers : list Frame) : fmt () :=
  Reset;;
  (if color l then Append (Color prefix) else Append (Plain prefix));;
  when (timestamp l) (
    when (color l) cb_Blue;;
    AppendInt (t_year now) 4;;
    AppendByte ch_slash;;
    AppendInt (t_month now) 2;;
    AppendByte ch_slash;;
    AppendInt (t_day now) 2;;
    AppendByte ch_space;;
    AppendInt (t_hour now) 2;;
    AppendByte ch_colon;;
    AppendInt (t_min now) 2;;
    AppendByte ch_colon;;
    AppendInt (t_sec now) 2;;
    AppendByte ch_space;;
    when (color l) cb_Off);;
  when (File prefix) (
    let '(file, fn, line, _) := getOccurrence l (in_output 249 :: callers) 0 in
    when (color l) cb_Orange;;
    Append fn;;
    AppendByte ch_colon;;
    Append file;;
    AppendByte ch_colon;;
    AppendInt line 0;;
    AppendByte ch_space;;
    when (color l) cb_Off);;
  Append data;;
  when (bool_decide (last data ≠ Some ch_newline)) (AppendByte ch_newline);;
  when (Callstack prefix) (callstack_loop l callers 50 0).

(** [output], lines 208 to 301.  [callers] is the stack above [output]: its
    frame 0 is [Output], at the line of the call. *)
Definition output (l : Logger) (prefix : Prefix) (data : list Z)
    (callers : list Frame) (w : World) : run (option error * Logger * World) :=
  if IsQuiet l then Ret (None, l, w)
  else
    let '(now, w) := time_Now w in
    '(_, s) ← format_record l prefix now data callers (mem w, buf l);
    let '(err, w) := Write (out l) (Bytes s) (with_mem s.1 w) in
    Ret (err, with_buf s.2 l, w).

(** [Output], lines 194 to 206.  The copy of the logger shares the backing
    array of [l.buf]; what it does to its own slice header is dropped with
    it. *)
Definition Output (l : Logger) (prefix : Prefix) (data : list Z)
    (callers : list Frame) (w : World) : run (option error * Logger * World) :=
  match logFile l with
  | Some f =>
      let loggerCopy := with_out f (with_color false l) in
      '(err, _, w) ← output loggerCopy prefix data (in_Output 201 :: callers) w;
      match err with
      | Some e => Ret (Some e, l, w)
      | None => output l prefix data (in_Output 205 :: callers) w
      end
  | None => output l prefix data (in_Output 205 :: callers) w
  end.

(** The severity methods drop the error of [Output]. *)
Definition dropped (r : run (option error * Logger * World)) : run (Logger * World) :=
  '(_, l, w) ← r; Ret (l, w).

(** [Fatal] and [Fatalf], lines 319 to 329 *)
Definition Fatal (l : Logger) (v : list (list Z)) (stack : list Frame) (w : World)
  : run (Logger * World) :=
  '(l, w) ← dropped (Output l FatalPrefix (Sprintln v) (in_method "Fatal" 320 :: stack) w);
  Ret (l, os_Exit 1 w).

Definition Fatalf (l : Logger) (format : list Z) (v : list (list Z))
    (stack : list Frame) (w : World) : run (Logger * World) :=
  '(l, w) ← dropped (Output l FatalPrefix (Sprintf format v) (in_method "Fatalf" 327 :: stack) w);
  Ret (l, os_Exit 1 w).

(** [Error] and [Errorf], lines 332 to 339 *)
Definition Error (l : Logger) (v : list (list Z)) (stack : list Frame) (w : World)
  : run (Logger * World) :=
  dropped (Output l ErrorPrefix (Sprintln v) (in_method "Error" 333 :: stack) w).

Definition Errorf (l : Logger) (format : list Z) (v : list (list Z))
    (stack : list Frame) (w : World) : run (Logger * World) :=
  dropped (Output l ErrorPrefix (Sprintf format v) (in_method "Errorf" 338 :: stack) w).

(** [Warn] and [Warnf], lines 342 to 349 *)
Definition Warn (l : Logger) (v : list (list Z)) (stack : list Frame) (w : World)
  : run (Logger * World) :=
  dropped (Output l WarnPrefix (Sprintln v) (in_method "Warn" 343 :: stack) w).

Definition Warnf (l : Logger) (format : list Z) (v : list (list Z))
    (stack : list Frame) (w : World) : run (Logger * World) :=
  dropped (Output l WarnPrefix (Sprintf format v) (in_method "Warnf" 348 :: stack) w).

(** [Info] and [Infof], lines 352 to 359 *)
Definition Info (l : Logger) (v : list (list Z)) (stack : list Frame) (w : World)
  : run (Logger * World) :=
  dropped (Output l InfoPrefix (Sprintln v) (in_method "Info" 353 :: stack) w).

Definition Infof (l : Logger) (format : list Z) (v : list (list Z))
    (stack : list Frame) (w : World) : run (Logger * World) :=
  dropped (Output l InfoPrefix (Sprintf format v) (in_method "Infof" 358 :: stack) w).

(** [Debug] and [Debugf], lines 362 to 373 *)
Definition Debug (l : Logger) (v : list (list Z)) (stack : list Frame) (w : World)
  : run (Logger * World) :=
  if IsDebug l
  then dropped (Output l DebugPrefix (Sprintln v) (in_method "Debug" 364 :: stack) w)
  else Ret (l, w).

Definition Debugf (l : Logger) (format : list Z) (v : list (list Z))
    (stack : list Frame) (w : World) : run (Logger * World) :=
  if IsDebug l
  then dropped (Output l DebugPrefix (Sprintf format v) (in_method "Debugf" 371 :: stack) w)
  else Ret (l, w).

(** [Trace] and [Tracef], lines 376 to 385 *)
Definition Trace (l : Logger) (v : list (list Z)) (stack : list Frame) (w : World)
  : run (Logger * World) :=
  if IsDebug l
  then dropped (Output l TracePrefix (Sprintln v) (in_method "Trace" 378 :: stack) w)
  else Ret (l, w).

Definition Tracef (l : Logger) (format : list Z) (v : list (list Z))
    (stack : list Frame) (w : World) : run (Logger * World) :=
  Trace l [Sprintf format v] (in_method "Tracef" 384 :: stack) w.


End Package.

(** ** What a record reads

    The bytes the calls of [format_record] append one after the other, as a
    value: every [Buffer] call stands for the bytes it appends, a panic of
    [AppendInt] for itself.  [format_record_emits] relates the two. *)

(** What two calls in a row append. *)
Definition then_text (r1 r2 : run (list Z)) : run (list Z) :=
  d1 ← r1; d2 ← r2; Ret (d1 ++ d2).

Infix "+++" := then_text (at level 60, right associativity).

Definition when_text (c : bool) (r : run (list Z)) : run (list Z) :=
  if c then r else Ret [].

(** What a [fmt] leaves in a buffer that starts empty. *)
Definition left_in_empty (p : fmt ()) : run (list Z) :=
  '(_, s) ← p (∅, nil_Buffer); Ret (Bytes s).

(** [p] appends exactly [d], or panics the way [r] says. *)
Definition emits (p : fmt ()) (r : run (list Z)) : Prop :=
  ∀ s, slice_ok s.1 s.2 →
    match r with
    | Ret d => ∃ s', p s = Ret ((), s') ∧ slice_ok s'.1 s'.2 ∧ Bytes s' = Bytes s ++ d
    | IndexOutOfRange i => p s = IndexOutOfRange i
    | Unfinished => p s = Unfinished
    end.

(** The state of the world after a pass that wrote [d] to [o]. *)
Definition after_pass (h : gmap nat (list Z)) (o : nat) (d : list Z) (w : World) : World :=
  mkWorld h (clock w) (S (ticks w)) (broken w) (opens w) (written w ++ [(o, d)]) (exited w).

Definition write_error (w : World) (o : nat) : option error :=
  if broken w o then Some (WriteError o) else None.

(** What [output] appends for the message: the message, and a newline
    unless it ends in one. *)
Definition with_newline (data : list Z) : list Z :=
  data ++ (if bool_decide (last data = Some ch_newline) then [] else [ch_newline]).

Section Texts.

Variable val : Z.
Variable pal : Palette.
Variable pkgdir : list Z.
Context {rt : Runtime}.

Fixpoint callstack_text (l : Logger) (callers : list Frame) (n : nat) (i : Z)
  : run (list Z) :=
  match n with
  | O => Ret []
  | S n' =>
      let '(file, fn, line, ok) := getOccurrence pkgdir l (in_output pkgdir 277 :: callers) i in
      if negb ok then Ret []
      else
        when_text (color l) (Ret (colorGray pal)) +++
        Ret [ch_tab] +++
        Ret fn +++
        Ret [ch_colon] +++
        Ret file +++
        Ret [ch_colon] +++
        AppendInt_repr val line 0 +++
        Ret [ch_newline] +++
        when_text (color l) (Ret (colorOff pal)) +++
        callstack_text l callers n' (i + 1)
  end.

(** Whether frame [i] of the dump is there. *)
Definition frame_there (l : Logger) (callers : list Frame) (i : Z) : bool :=
  (getOccurrence pkgdir l (in_output pkgdir 277 :: callers) i).2.

(** One line of the call-stack dump, for the frame [i] turns into the
    loop, and [k] lines in a row. *)
Definition line_text (l : Logger) (callers : list Frame) (i : Z) : run (list Z) :=
  let '(file, fn, line, _) := getOccurrence pkgdir l (in_output pkgdir 277 :: callers) i in
  when_text (color l) (Ret (colorGray pal)) +++
  Ret [ch_tab] +++
  Ret fn +++
  Ret [ch_colon] +++
  Ret file +++
  Ret [ch_colon] +++
  AppendInt_repr val line 0 +++
  Ret [ch_newline] +++
  when_text (color l) (Ret (colorOff pal)).

Fixpoint lines_text (l : Logger) (callers : list Frame) (k : nat) (i : Z)
  : run (list Z) :=
  match k with
  | O => Ret []
  | S k' => line_text l callers i +++ lines_text l callers k' (i + 1)
  end.

Definition timestamp_text (c : bool) (now : Time) : run (list Z) :=
  when_text c (Ret (colorBlue pal)) +++
  AppendInt_repr val (t_year now) 4 +++
  Ret [ch_slash] +++
  AppendInt_repr val (t_month now) 2 +++
  Ret [ch_slash] +++
  AppendInt_repr val (t_day now) 2 +++
  Ret [ch_space] +++
  AppendInt_repr val (t_hour now) 2 +++
  Ret [ch_colon] +++
  AppendInt_repr val (t_min now) 2 +++
  Ret [ch_colon] +++
  AppendInt_repr val (t_sec now) 2 +++
  Ret [ch_space] +++
  when_text c (Ret (colorOff pal)).

Definition location_text (l : Logger) (callers : list Frame) : run (list Z) :=
  let '(file, fn, line, _) := getOccurrence pkgdir l (in_output pkgdir 249 :: callers) 0 in
  when_text (color l) (Ret (colorOrange pal)) +++
  Ret fn +++
  Ret [ch_colon] +++
  Ret file +++
  Ret [ch_colon] +++
  AppendInt_repr val line 0 +++
  Ret [ch_space] +++
  when_text (color l) (Ret (colorOff pal)).

Definition record_text (l : Logger) (prefix : Prefix) (now : Time)
    (data : list Z) (callers : list Frame) : run (list Z) :=
  (if color l then Ret (Color prefix) else Ret (Plain prefix)) +++
  when_text (timestamp l) (timestamp_text (color l) now) +++
  when_text (File prefix) (location_text l callers) +++
  Ret data +++
  when_text (bool_decide (last data ≠ Some ch_newline)) (Ret [ch_newline]) +++
  when_text (Callstack prefix) (callstack_text l callers 50 0).

(** The escape sequences of the palette, and the six prefixes. *)
Definition escapes : list (list Z) :=
  [colorOff pal; colorRed pal; colorGreen pal; colorOrange pal;
   colorBlue pal; colorPurple pal; colorCyan pal; colorGray pal].

Definition severities : list Prefix :=
  [FatalPrefix pal; ErrorPrefix pal; WarnPrefix pal;
   InfoPrefix pal; DebugPrefix pal; TracePrefix pal].

(** [uncoloured c p]: [p] is [c] with escape sequences of the palette taken
    out: the two are the same bytes but for colour escapes. *)
Inductive uncoloured : list Z → list Z → Prop :=
| uncoloured_nil : uncoloured [] []
| uncoloured_byte x c p : uncoloured c p → uncoloured (x :: c) (x :: p)
| uncoloured_escape e c p : e ∈ escapes → uncoloured c p → uncoloured (e ++ c) p.

(** The same for two runs: the same panic, or texts that agree. *)
Definition agree (rc rp : run (list Z)) : Prop :=
  match rc, rp with
  | Ret c, Ret p => uncoloured c p
  | IndexOutOfRange i, IndexOutOfRange j => i = j
  | Unfinished, Unfinished => True
  | _, _ => False
  end.

End Texts.

(** ** A concrete run

    [val] is taken as 0, what a package-level integer holds when nothing
    assigns it.  The palette is the usual ANSI one; [append] doubles the
    capacity; the package was built in [/go/src/colored_logging]. *)

Definition escape (s : string) : list Z := ch_escape :: bytes_of s.

Definition ansi : Palette :=
  mkPalette (escape "[0m") (escape "[0;31m") (escape "[0;32m") (escape "[0;33m")
    (escape "[0;34m") (escape "[0;35m") (escape "[0;36m") (escape "[0;37m").

Definition doubling (old needed : nat) : nat := (2 * old)%nat.

Definition builddir : list Z := bytes_of "/go/src/colored_logging".

(** The runtime of the run: Go installed in [/usr/local/go]. *)
#[global] Instance go_runtime : Runtime :=
  {| Caller_frame :=
       mkFrame (bytes_of "runtime.Caller")
         (bytes_of "/usr/local/go/src/runtime/extern.go") 331 |}.

Definition main_stack : list Frame :=
  [mkFrame (bytes_of "main.main") (bytes_of "/home/u/app/main.go") 12].

(** A clock that stands still, and one that is a second later at every
    reading. *)
Definition stopped (n : nat) : Time := mkTime 2024 1 2 3 4 5.
Definition second_hand (n : nat) : Time := mkTime 2024 1 2 3 4 (5 + Z.of_nat n).

(** A world where nothing was written yet and no file can be opened. *)
Definition world (clock : nat → Time) (broken : nat → bool) : World :=
  mkWorld ∅ clock 0 broken (λ _, inr (bytes_of "permission denied")) [] None.

Definition sound (o : nat) : bool := false.
Definition file_full (o : nat) : bool := bool_decide (o = 2%nat).

Definition writes_of {A} (r : run (A * World)) : option (list (nat * list Z)) :=
  match r with
  | Ret (_, w) => Some (written w)
  | _ => None
  end.

Definition error_of {A} (r : run (option error * A * World)) : option (option error) :=
  match r with
  | Ret (e, _, _) => Some e
  | _ => None
  end.

(** Writer 1 is the primary destination, writer 2 the file. *)
Definition plain_logger : Logger := WithoutColor (WithoutTimestamp (New true 1)).
Definition file_logger : Logger := with_logFile (Some 2%nat) plain_logger.
Definition dated_file_logger : Logger := WithTimestamp file_logger.
Definition coloured_file_logger : Logger := Depth 2 (WithColor dated_file_logger).

(** ** Reuse of the array

    What it is for a run of buffer calls to stay in the array the buffer
    has. *)

(** [s'] is [s] over the same array: the same reference, the same capacity,
    and every other array of the store as it was (none was made). *)
Definition same_array (s s' : gmap nat (list Z) * Buffer) : Prop :=
  data s'.2 = data s.2 ∧ cap s'.1 s'.2 = cap s.1 s.2
  ∧ ∀ q, data s.2 ≠ Some q → s'.1 !! q = s.1 !! q.

(** [p] appends the bytes of [r], and does so in the array the buffer has
    whenever they fit its capacity. *)
Definition within (p : fmt ()) (r : run (list Z)) : Prop :=
  ∀ s d, r = Ret d → slice_ok s.1 s.2 →
    (len s.2 + length d ≤ cap s.1 s.2)%nat →
    ∃ s', p s = Ret ((), s') ∧ same_array s s'
          ∧ len s'.2 = (len s.2 + length d)%nat.

(** A buffer that read ["old bytes"] and was not reset yet. *)
Definition used_buffer : gmap nat (list Z) * Buffer :=
  (<[5%nat := bytes_of "old bytes"]> ∅, mkBuffer (Some 5%nat) 9).

(** * Facts *)

(** ** The buffer *)

Section Buffer_facts.

Variable growslice : nat → nat → nat.

Lemma append_spec h b d :
  slice_ok h b →
  let s := append growslice h b d in
  slice_ok s.1 s.2 ∧ Bytes s = Bytes (h, b) ++ d.
Proof.
  unfold append, slice_ok, Bytes, cap. intros Hok.
  set (arr := backing h b) in *.
  case_decide as Hfit.
  - destruct b as [[p|] n]; simpl in *.
    + assert (Hnew : backing (<[p:=take n arr ++ d ++ drop (n + length d) arr]> h)
                (mkBuffer (Some p) (n + length d))
              = take n arr ++ d ++ drop (n + length d) arr).
      { unfold backing; simpl. by rewrite lookup_insert_eq. }
      rewrite Hnew. split.
      * rewrite !length_app, length_take, length_drop. lia.
      * rewrite app_assoc, take_app_length'; [done|].
        rewrite length_app, length_take. lia.
    + subst arr. unfold backing in *; simpl in *.
      assert (n = 0%nat) by lia. destruct d; simpl in *; [|lia]. subst.
      split; [lia|done].
  - simpl. set (p := fresh (dom h)).
    set (c := Nat.max (len b + length d) (growslice (length arr) (len b + length d))).
    assert (Hnew : backing (<[p:=take (len b) arr ++ d ++ replicate (c - (len b + length d)) 0]> h)
                (mkBuffer (Some p) (len b + length d))
              = take (len b) arr ++ d ++ replicate (c - (len b + length d)) 0).
    { unfold backing; simpl. by rewrite lookup_insert_eq. }
    simpl. rewrite Hnew. split.
    + rewrite !length_app, length_take, length_replicate. lia.
    + rewrite app_assoc, take_app_length'; [done|].
      rewrite length_app, length_take. lia.
Qed.

(** A reallocating [append] leaves every array that was there as it was:
    another slice over the old array still reads its old bytes. *)
Lemma append_fresh h b d q :
  (cap h b < len b + length d)%nat →
  is_Some (h !! q) →
  (append growslice h b d).1 !! q = h !! q.
Proof.
  intros Hbig Hq. unfold append. case_decide; [lia|]. simpl.
  apply lookup_insert_ne. intros Heq. subst q.
  apply elem_of_dom in Hq. by apply is_fresh in Hq.
Qed.

Lemma emits_ret : emits (mret ()) (Ret []).
Proof. intros s Hs. exists s. by rewrite app_nil_r. Qed.

Lemma emits_seq p q r1 r2 :
  emits p r1 → emits q r2 → emits (p ;; q) (then_text r1 r2).
Proof.
  intros Hp Hq s Hs. specialize (Hp s Hs).
  unfold mbind, fmt_bind, then_text.
  destruct r1 as [d1| |]; simpl in *; [|by rewrite Hp..].
  destruct Hp as (s1 & -> & Hs1 & Hb1). specialize (Hq s1 Hs1).
  destruct r2 as [d2| |]; simpl in *; [|done..].
  destruct Hq as (s2 & -> & Hs2 & Hb2). exists s2.
  by rewrite Hb2, Hb1, app_assoc.
Qed.

Lemma emits_Append d : emits (Append growslice d) (Ret d).
Proof.
  intros [h b] Hs. eexists. split; [reflexivity|]. by apply append_spec.
Qed.

Lemma emits_AppendByte x : emits (AppendByte growslice x) (Ret [x]).
Proof.
  intros [h b] Hs. eexists. split; [reflexivity|]. by apply append_spec.
Qed.

Lemma emits_AppendInt val v w :
  emits (AppendInt val growslice v w) (AppendInt_repr val v w).
Proof.
  intros [h b] Hs. unfold AppendInt.
  destruct (AppendInt_repr val v w) as [d| |]; simpl; [|done..].
  eexists. split; [reflexivity|]. by apply append_spec.
Qed.

Lemma emits_when (c : bool) p r :
  emits p r → emits (when c p) (if c then r else Ret []).
Proof. destruct c; [done|]. intros _. apply emits_ret. Qed.

Lemma emits_if (c : bool) p q r1 r2 :
  emits p r1 → emits q r2 → emits (if c then p else q) (if c then r1 else r2).
Proof. by destruct c. Qed.

(** After [Reset] the buffer reads empty, whatever its array holds. *)
Lemma Reset_spec s :
  ∃ s', Reset s = Ret ((), s') ∧ slice_ok s'.1 s'.2 ∧ Bytes s' = []
        ∧ s'.1 = s.1 ∧ data s'.2 = data s.2 ∧ len s'.2 = 0%nat.
Proof.
  eexists. split; [reflexivity|]. unfold slice_ok, Bytes. simpl.
  repeat split. lia.
Qed.

Lemma emits_calls cs : emits (calls growslice cs) (Ret (concat (appended <$> cs))).
Proof.
  induction cs as [|c cs IH]; [apply emits_ret|].
  change (emits (call growslice c;; calls growslice cs)
            (then_text (Ret (appended c)) (Ret (concat (appended <$> cs))))).
  apply emits_seq; [|done]. destruct c; [apply emits_Append|apply emits_AppendByte].
Qed.

(** C5. [Reset] sets the logical length to 0, and every run of [Append] and
    [AppendByte] calls after it leaves [Bytes] equal to what the same calls
    leave on an empty buffer: the bytes appended, in order, and nothing of
    what the array held before. *)
Theorem Reset_then_appends (cs : list buffer_call) (s : gmap nat (list Z) * Buffer) :
  ∃ s0 s1 s2,
    Reset s = Ret ((), s0) ∧ len s0.2 = 0%nat ∧ Bytes s0 = [] ∧
    calls growslice cs s0 = Ret ((), s1) ∧
    calls growslice cs (∅, nil_Buffer) = Ret ((), s2) ∧
    Bytes s1 = Bytes s2 ∧
    Bytes s1 = concat (appended <$> cs).
Proof.
  destruct (Reset_spec s) as (s0 & HR & Hok & Hb & _ & _ & Hlen).
  destruct (emits_calls cs s0 Hok) as (s1 & Hs1 & _ & Hb1).
  destruct (emits_calls cs (∅, nil_Buffer)) as (s2 & Hs2 & _ & Hb2).
  { unfold slice_ok. simpl. lia. }
  exists s0, s1, s2. rewrite Hb1, Hb2, Hb. by repeat split.
Qed.

End Buffer_facts.

(** The array is kept by [Reset], with what it held: the bytes past the new
    length are those of before, and [Bytes] does not show them. *)
Example Reset_keeps_the_array :
  ∃ s,
    (Append doubling (bytes_of "old bytes");; Reset;; Append doubling (bytes_of "new"))
      (∅, nil_Buffer) = Ret ((), s)
    ∧ Bytes s = bytes_of "new"
    ∧ backing s.1 s.2 = bytes_of "new bytes".
Proof. vm_compute. eexists. repeat split. Qed.

(** ** [AppendInt] *)

Section AppendInt_facts.

Variable val : Z.

Lemma AppendInt_loop_exit fuel repr rc rem w :
  (10 <=? rem) || (1 <? w) = false →
  AppendInt_loop val fuel repr rc rem w = Ret (repr, rc, rem).
Proof. intros H. destruct fuel; simpl; by rewrite H. Qed.

Lemma AppendInt_loop_turn fuel repr rc rem w :
  (10 <=? rem) || (1 <? w) = true →
  AppendInt_loop val (S fuel) repr rc rem w =
    repr' ← store repr rc
      (byte_of_int
         (int_wrap (int_wrap (ch_zero + rem) - int_wrap (int_wrap (val ÷ 10) * 10))));
    AppendInt_loop val fuel repr' (rc - 1) (int_wrap (val ÷ 10)) (int_wrap (w - 1)).
Proof. intros H. simpl. by rewrite H. Qed.

Lemma store_in_range repr i x :
  0 ≤ i < Z.of_nat (length repr) → store repr i x = Ret (<[Z.to_nat i := x]> repr).
Proof. intros H. unfold store. by case_decide. Qed.

Lemma store_out_of_range repr i x :
  ¬ (0 ≤ i < Z.of_nat (length repr)) → store repr i x = IndexOutOfRange i.
Proof. intros H. unfold store. by case_decide. Qed.

(** The budget is never the reason the loop stops. *)
Lemma AppendInt_loop_finishes fuel repr rc rem w :
  -1 ≤ rc → rc + 2 ≤ Z.of_nat fuel →
  AppendInt_loop val fuel repr rc rem w ≠ Unfinished.
Proof.
  revert repr rc rem w.
  induction fuel as [|fuel IH]; intros repr rc rem w Hlo Hhi; [lia|].
  destruct ((10 <=? rem) || (1 <? w)) eqn:Hc.
  - rewrite AppendInt_loop_turn by done.
    destruct (decide (0 ≤ rc < Z.of_nat (length repr))) as [Hin|Hout].
    + rewrite store_in_range by done. apply IH; lia.
    + by rewrite store_out_of_range.
  - by rewrite AppendInt_loop_exit.
Qed.

Lemma AppendInt_repr_finishes v w : AppendInt_repr val v w ≠ Unfinished.
Proof.
  unfold AppendInt_repr.
  pose proof (AppendInt_loop_finishes 9 (replicate 8 0) 7 v w) as H.
  destruct (AppendInt_loop val 9 (replicate 8 0) 7 v w) as [[[repr rc] rem]| |];
    simpl; [|done|exfalso; apply H; [lia|simpl; lia|done]].
  unfold store. by case_decide.
Qed.

(** A value below ten with no padding asked for never enters the loop: one
    byte, the digit. *)
Lemma AppendInt_repr_digit v w :
  0 ≤ v < 10 → w ≤ 1 → AppendInt_repr val v w = Ret [ch_zero + v].
Proof.
  intros Hv Hw. unfold AppendInt_repr.
  rewrite AppendInt_loop_exit.
  2:{ apply orb_false_iff. split; [apply Z.leb_gt|apply Z.ltb_ge]; lia. }
  simpl. do 2 f_equal. unfold byte_of_int, int_wrap, ch_zero.
  rewrite (Z.mod_small (48 + v + 2 ^ 63)) by lia.
  rewrite Z.mod_small; lia.
Qed.

(** Once the running value is ten or more and is replaced by itself, the
    loop runs down the whole array and stores at index -1. *)
Lemma AppendInt_loop_runs_out fuel repr rc rem w :
  10 ≤ int_wrap (val ÷ 10) →
  (10 ≤ rem ∨ 1 < w) →
  -1 ≤ rc < Z.of_nat (length repr) → rc + 2 ≤ Z.of_nat fuel →
  AppendInt_loop val fuel repr rc rem w = IndexOutOfRange (-1).
Proof.
  intros Hq. revert repr rc rem w.
  induction fuel as [|fuel IH]; intros repr rc rem w Hc Hrc Hfuel; [lia|].
  rewrite AppendInt_loop_turn.
  2:{ apply orb_true_iff. destruct Hc; [left; apply Z.leb_le|right; apply Z.ltb_lt]; lia. }
  destruct (decide (rc = -1)) as [->|Hne].
  - rewrite store_out_of_range by lia. done.
  - rewrite store_in_range by lia. simpl.
    apply IH; [by left|rewrite length_insert; lia|lia].
Qed.

Lemma int_wrap_small x : - 2 ^ 63 ≤ x < 2 ^ 63 → int_wrap x = x.
Proof. intros H. unfold int_wrap. rewrite Z.mod_small; lia. Qed.


Lemma AppendInt_loop_stores fuel repr rc rem w :
  (10 <=? rem) || (1 <? w) = true →
  0 ≤ rc < Z.of_nat (length repr) →
  AppendInt_loop val (S fuel) repr rc rem w =
    AppendInt_loop val fuel
      (<[Z.to_nat rc :=
           byte_of_int
             (int_wrap (int_wrap (ch_zero + rem) - int_wrap (int_wrap (val ÷ 10) * 10)))]>
         repr)
      (rc - 1) (int_wrap (val ÷ 10)) (int_wrap (w - 1)).
Proof.
  intros Hc Hrc. rewrite AppendInt_loop_turn by done.
  by rewrite store_in_range.
Qed.

(** Asked for the year 2024 on four digits, the loop takes three turns on
    account of the width.  The second and the third both store the digit of
    the same running value, [val / 10]: the two middle bytes are equal. *)
Lemma AppendInt_repr_2024 :
  AppendInt_repr val 2024 4 ≠ Ret (bytes_of "2024").
Proof.
  unfold AppendInt_repr.
  rewrite AppendInt_loop_stores by (done || (simpl; lia)).
  change (int_wrap (4 - 1)) with 3.
  rewrite AppendInt_loop_stores
    by (apply orb_true_r || (rewrite ?length_insert; simpl; lia)).
  change (int_wrap (3 - 1)) with 2.
  rewrite AppendInt_loop_stores
    by (apply orb_true_r || (rewrite ?length_insert; simpl; lia)).
  change (int_wrap (2 - 1)) with 1.
  set (q := int_wrap (val ÷ 10)).
  destruct (decide (10 ≤ q)) as [Hq|Hq].
  - rewrite AppendInt_loop_runs_out; [done|done|by left| |simpl; lia].
    rewrite !length_insert. simpl. lia.
  - rewrite AppendInt_loop_exit.
    2:{ apply orb_false_iff. split; [apply Z.leb_gt; lia|done]. }
    unfold mbind, run_bind.
    rewrite store_in_range by (rewrite !length_insert; simpl; lia).
    simpl. intros [= _ H0 H2 _]. rewrite H0 in H2. discriminate H2.
Qed.

(** What line 27 expects of line 26: the byte a turn stores is the last
    decimal digit of the running value when the quotient taken from [val]
    is the quotient of the running value. *)
Lemma AppendInt_turn_digit rem :
  0 ≤ rem < 2 ^ 62 → int_wrap (val ÷ 10) = rem ÷ 10 →
  byte_of_int
    (int_wrap (int_wrap (ch_zero + rem) - int_wrap (int_wrap (val ÷ 10) * 10)))
  = ch_zero + rem `mod` 10.
Proof.
  intros Hrem ->. unfold ch_zero, byte_of_int.
  assert (Hq : 0 ≤ rem ÷ 10 * 10 ≤ rem) by (Z.to_euclidean_division_equations; lia).
  assert (Hd : 48 + rem - rem ÷ 10 * 10 = 48 + rem `mod` 10)
    by (Z.to_euclidean_division_equations; lia).
  rewrite (int_wrap_small (48 + rem)), (int_wrap_small (rem ÷ 10 * 10)) by lia.
  pose proof (Z.mod_pos_bound rem 10).
  rewrite Hd, int_wrap_small by lia. apply Z.mod_small. lia.
Qed.

(** So a value of two digits comes out right exactly on that condition. *)
Lemma AppendInt_repr_two_digits v w :
  10 ≤ v < 100 → - 2 ^ 63 < w ≤ 2 → int_wrap (val ÷ 10) = v ÷ 10 →
  AppendInt_repr val v w = Ret [ch_zero + v ÷ 10; ch_zero + v `mod` 10].
Proof.
  intros Hv Hw Hq. unfold AppendInt_repr.
  assert (Hq' : 1 ≤ v ÷ 10 < 10) by (Z.to_euclidean_division_equations; lia).
  rewrite AppendInt_loop_stores.
  2:{ apply orb_true_iff. left. apply Z.leb_le. lia. }
  2:{ simpl. lia. }
  rewrite AppendInt_turn_digit by (done || lia). rewrite Hq.
  rewrite AppendInt_loop_exit.
  2:{ apply orb_false_iff. split; [apply Z.leb_gt; lia|].
      apply Z.ltb_ge. rewrite int_wrap_small; lia. }
  simpl. do 3 f_equal. unfold byte_of_int, ch_zero.
  rewrite int_wrap_small by lia. apply Z.mod_small. lia.
Qed.






End AppendInt_facts.

(** ** Texts but for colour escapes *)

Section Text_facts.

Variable val : Z.
Variable pal : Palette.
Variable pkgdir : list Z.
Context {rt : Runtime}.

Ltac in_escapes :=
  unfold escapes; apply list_elem_of_In; simpl;
  repeat first [left; reflexivity | right].

Lemma uncoloured_refl d : uncoloured pal d d.
Proof. induction d; by constructor. Qed.

Lemma uncoloured_app c1 p1 c2 p2 :
  uncoloured pal c1 p1 → uncoloured pal c2 p2 → uncoloured pal (c1 ++ c2) (p1 ++ p2).
Proof.
  induction 1 as [|x c p _ IH|e c p He _ IH]; intros H2; simpl; [done|..].
  - constructor. by apply IH.
  - rewrite <- app_assoc. constructor; [done|]. by apply IH.
Qed.

Lemma uncoloured_one_escape e : e ∈ escapes pal → uncoloured pal e [].
Proof.
  intros He. rewrite <- (app_nil_r e). constructor; [done|constructor].
Qed.

Lemma uncoloured_severity prefix :
  prefix ∈ severities pal → uncoloured pal (Color prefix) (Plain prefix).
Proof.
  assert (Hmix : ∀ d e, e ∈ escapes pal → uncoloured pal (mixer pal d e) d).
  { intros d e He. unfold mixer. constructor; [done|].
    rewrite <- (app_nil_r d) at 2. apply uncoloured_app; [apply uncoloured_refl|].
    apply uncoloured_one_escape. in_escapes. }
  unfold severities. intros H.
  repeat (apply elem_of_cons in H as [->|H]); [..|by apply elem_of_nil in H];
    simpl; apply Hmix; in_escapes.
Qed.

Lemma agree_refl r : agree pal r r.
Proof. destruct r; simpl; [apply uncoloured_refl|done..]. Qed.

Lemma agree_then rc1 rp1 rc2 rp2 :
  agree pal rc1 rp1 → agree pal rc2 rp2 → agree pal (rc1 +++ rc2) (rp1 +++ rp2).
Proof.
  destruct rc1, rp1; simpl; try done; intros H1;
    destruct rc2, rp2; simpl; try done.
  by apply uncoloured_app.
Qed.

Lemma agree_escape (c : bool) e :
  e ∈ escapes pal → agree pal (when_text c (Ret e)) (Ret []).
Proof. intros He. destruct c; simpl; [by apply uncoloured_one_escape|constructor]. Qed.

Lemma agree_when (c : bool) rc rp :
  agree pal rc rp → agree pal (when_text c rc) (when_text c rp).
Proof. destruct c; [done|]. intros _. simpl. constructor. Qed.

(** With [1 <= depth], the frame [getOccurrence] resolves lies above
    [Output]: the line [Output] calls [output] from does not show. *)
Lemma getOccurrence_above_Output l l' callers at_ line line' i :
  depth l' = depth l → 1 ≤ depth l ≤ 2 ^ 62 → 0 ≤ i ≤ 50 →
  getOccurrence pkgdir l (in_output pkgdir at_ :: in_Output pkgdir line :: callers) i
  = getOccurrence pkgdir l' (in_output pkgdir at_ :: in_Output pkgdir line' :: callers) i.
Proof.
  intros Hd Hdepth Hi. unfold getOccurrence, runtime_Caller. rewrite Hd.
  rewrite (int_wrap_small (depth l + 2)) by lia.
  rewrite (int_wrap_small (depth l + 2 + i)) by lia.
  rewrite int_wrap_small by lia. cbv zeta.
  case_decide; [|lia].
  replace (Z.to_nat (depth l + 2 + i + 1 - 1))
    with (S (S (S (Z.to_nat (depth l + i - 1))))) by lia.
  reflexivity.
Qed.

Lemma callstack_text_agree l l' callers line line' n i :
  depth l' = depth l → color l' = false → 1 ≤ depth l ≤ 2 ^ 62 →
  0 ≤ i → i + Z.of_nat n ≤ 50 →
  agree pal
    (callstack_text val pal pkgdir l (in_Output pkgdir line :: callers) n i)
    (callstack_text val pal pkgdir l' (in_Output pkgdir line' :: callers) n i).
Proof.
  intros Hd Hc Hdepth. revert i. induction n as [|n IH]; intros i Hi Hn.
  { simpl. constructor. }
  cbn [callstack_text].
  rewrite (getOccurrence_above_Output l l' callers 277 line line' i) by (done || lia).
  destruct (getOccurrence pkgdir l' _ i) as [[[file fn] ln] ok].
  destruct ok; unfold negb; cbv beta iota; [|simpl; constructor].
  rewrite Hc.
  apply agree_then; [apply agree_escape; in_escapes|].
  do 7 (apply agree_then; [apply agree_refl|]).
  apply agree_then; [apply agree_escape; in_escapes|].
  apply IH; lia.
Qed.

(** The record of the primary pass and the record of the file pass, formatted
    at the same instant, are the same bytes but for the colour escapes,
    when the resolved frames lie above [Output] or no frame is resolved. *)
Lemma record_text_agree l f prefix now data callers :
  prefix ∈ severities pal →
  (1 ≤ depth l ≤ 2 ^ 62 ∨ (File prefix = false ∧ Callstack prefix = false)) →
  agree pal
    (record_text val pal pkgdir l prefix now data (in_Output pkgdir 205 :: callers))
    (record_text val pal pkgdir (with_out f (with_color false l)) prefix now data
       (in_Output pkgdir 201 :: callers)).
Proof.
  intros Hp Hframes. unfold record_text.
  cbn [color timestamp with_out with_color].
  apply agree_then.
  { destruct (color l); simpl; [by apply uncoloured_severity|apply uncoloured_refl]. }
  apply agree_then.
  { apply agree_when. unfold timestamp_text.
    apply agree_then; [apply agree_escape; in_escapes|].
    do 12 (apply agree_then; [apply agree_refl|]).
    apply agree_escape; in_escapes. }
  apply agree_then.
  { destruct (File prefix) eqn:HF; [|simpl; constructor].
    destruct Hframes as [Hdepth|[? _]]; [|congruence].
    unfold when_text, location_text.
    rewrite (getOccurrence_above_Output l (with_out f (with_color false l))
               callers 249 205 201 0) by (done || lia).
    destruct (getOccurrence pkgdir _ _ 0) as [[[file fn] ln] ok].
    cbn [color with_out with_color].
    apply agree_then; [apply agree_escape; in_escapes|].
    do 6 (apply agree_then; [apply agree_refl|]).
    apply agree_escape; in_escapes. }
  do 2 (apply agree_then; [apply agree_refl|]).
  destruct (Callstack prefix) eqn:HS; [|simpl; constructor].
  destruct Hframes as [Hdepth|[_ ?]]; [|congruence].
  unfold when_text. apply callstack_text_agree; (done || lia).
Qed.

(** With colour off the record does not depend on the palette, and of the
    logger and the prefix it reads only the depth, the timestamp flag, the
    plain prefix and the two flags of the prefix. *)
Lemma callstack_text_plain pal' l l' callers n i :
  color l = false → color l' = false → depth l' = depth l →
  callstack_text val pal pkgdir l callers n i = callstack_text val pal' pkgdir l' callers n i.
Proof.
  intros Hc Hc' Hd. revert i. induction n as [|n IH]; intros i; [done|].
  cbn [callstack_text].
  replace (getOccurrence pkgdir l' (in_output pkgdir 277 :: callers) i)
    with (getOccurrence pkgdir l (in_output pkgdir 277 :: callers) i)
    by (unfold getOccurrence; by rewrite Hd).
  destruct (getOccurrence pkgdir l _ i) as [[[file fn] ln] ok].
  destruct ok; unfold negb; cbv beta iota; [|done].
  by rewrite Hc, Hc', IH.
Qed.

Lemma record_text_plain pal' l l' prefix prefix' now data callers :
  color l = false → color l' = false → depth l' = depth l →
  timestamp l' = timestamp l →
  Plain prefix' = Plain prefix → File prefix' = File prefix →
  Callstack prefix' = Callstack prefix →
  record_text val pal pkgdir l prefix now data callers
  = record_text val pal' pkgdir l' prefix' now data callers.
Proof.
  intros Hc Hc' Hd Ht HP HF HS. unfold record_text, location_text.
  replace (getOccurrence pkgdir l' (in_output pkgdir 249 :: callers) 0)
    with (getOccurrence pkgdir l (in_output pkgdir 249 :: callers) 0)
    by (unfold getOccurrence; by rewrite Hd).
  rewrite (callstack_text_plain pal' l l') by done.
  by rewrite Hc, Hc', Ht, HP, HF, HS.
Qed.

(** A text without the escape byte agrees with itself only, when every
    escape sequence of the palette starts with that byte. *)
Lemma uncoloured_plain c p :
  Forall (λ e, head e = Some ch_escape) (escapes pal) →
  ch_escape ∉ c → uncoloured pal c p → c = p.
Proof.
  intros Hesc Hc H. induction H as [|x c p _ IH|e c p He _ _]; [done|..].
  - f_equal. apply IH. intros Hin. apply Hc. by right.
  - exfalso. apply Hc.
    rewrite Forall_forall in Hesc. specialize (Hesc e He).
    destruct e as [|x e]; [done|]. injection Hesc as ->. by left.
Qed.

End Text_facts.

(** ** The emission *)

Section Pipeline_facts.

Variable val : Z.
Variable growslice : nat → nat → nat.
Variable pal : Palette.
Variable pkgdir : list Z.
Context {rt : Runtime}.

Ltac emits_step :=
  lazymatch goal with
  | |- emits (_ ;; _) _ => apply emits_seq
  | |- emits (when _ _) _ => apply emits_when
  | |- emits (if _ then _ else _) _ => apply emits_if
  | |- emits (Append _ _) _ => apply emits_Append
  | |- emits (AppendByte _ _) _ => apply emits_AppendByte
  | |- emits (AppendInt _ _ _ _) _ => apply emits_AppendInt
  | |- emits (mret _) _ => apply emits_ret
  end.

Lemma callstack_loop_emits l callers n i :
  emits (callstack_loop val growslice pal pkgdir l callers n i)
    (callstack_text val pal pkgdir l callers n i).
Proof.
  revert i. induction n as [|n IH]; intros i; [apply emits_ret|].
  cbn [callstack_loop callstack_text].
  destruct (getOccurrence pkgdir l (in_output pkgdir 277 :: callers) i)
    as [[[file fn] line] ok].
  destruct ok; unfold negb; cbv beta iota; [|apply emits_ret].
  unfold cb_Gray, cb_Off. repeat emits_step. apply IH.
Qed.

Lemma after_Reset (p : fmt ()) s s0 :
  Reset s = Ret ((), s0) → (Reset;; p) s = p s0.
Proof. unfold mbind, fmt_bind. by intros ->. Qed.

(** [format_record] leaves in the buffer exactly [record_text], whatever
    the buffer and its array held before. *)
Lemma format_record_emits l prefix now data callers s :
  match record_text val pal pkgdir l prefix now data callers with
  | Ret d =>
      ∃ s', format_record val growslice pal pkgdir l prefix now data callers s = Ret ((), s')
            ∧ Bytes s' = d
  | IndexOutOfRange i =>
      format_record val growslice pal pkgdir l prefix now data callers s = IndexOutOfRange i
  | Unfinished =>
      format_record val growslice pal pkgdir l prefix now data callers s = Unfinished
  end.
Proof.
  destruct (Reset_spec s) as (s0 & HR & Hok & Hb & _).
  unfold format_record. rewrite (after_Reset _ s s0 HR).
  assert (He : emits
    ((if color l then Append growslice (Color prefix) else Append growslice (Plain prefix));;
     when (timestamp l)
       (when (color l) (cb_Blue growslice pal);;
        AppendInt val growslice (t_year now) 4;;
        AppendByte growslice ch_slash;;
        AppendInt val growslice (t_month now) 2;;
        AppendByte growslice ch_slash;;
        AppendInt val growslice (t_day now) 2;;
        AppendByte growslice ch_space;;
        AppendInt val growslice (t_hour now) 2;;
        AppendByte growslice ch_colon;;
        AppendInt val growslice (t_min now) 2;;
        AppendByte growslice ch_colon;;
        AppendInt val growslice (t_sec now) 2;;
        AppendByte growslice ch_space;;
        when (color l) (cb_Off growslice pal));;
     when (File prefix)
       (let '(file, fn, line, _) := getOccurrence pkgdir l (in_output pkgdir 249 :: callers) 0 in
        when (color l) (cb_Orange growslice pal);;
        Append growslice fn;;
        AppendByte growslice ch_colon;;
        Append growslice file;;
        AppendByte growslice ch_colon;;
        AppendInt val growslice line 0;;
        AppendByte growslice ch_space;;
        when (color l) (cb_Off growslice pal));;
     Append growslice data;;
     when (bool_decide (last data ≠ Some ch_newline)) (AppendByte growslice ch_newline);;
     when (Callstack prefix) (callstack_loop val growslice pal pkgdir l callers 50 0))
    (record_text val pal pkgdir l prefix now data callers)).
  { unfold record_text, timestamp_text, location_text.
    unfold cb_Blue, cb_Off, cb_Orange.
    destruct (getOccurrence pkgdir l (in_output pkgdir 249 :: callers) 0)
      as [[[file fn] line] ok].
    cbv beta iota. repeat emits_step. apply callstack_loop_emits. }
  specialize (He s0 Hok).
  destruct (record_text val pal pkgdir l prefix now data callers) as [d| |]; [|done..].
  destruct He as (s' & Hs' & _ & Hb'). exists s'. by rewrite Hs', Hb', Hb.
Qed.

Lemma then_text_finishes r1 r2 :
  r1 ≠ Unfinished → r2 ≠ Unfinished → r1 +++ r2 ≠ Unfinished.
Proof. destruct r1, r2; simpl; congruence. Qed.

Lemma when_text_finishes c r : r ≠ Unfinished → when_text c r ≠ Unfinished.
Proof. by destruct c. Qed.

Ltac finishes_step :=
  lazymatch goal with
  | |- _ +++ _ ≠ Unfinished => apply then_text_finishes
  | |- when_text _ _ ≠ Unfinished => apply when_text_finishes
  | |- AppendInt_repr _ _ _ ≠ Unfinished => apply AppendInt_repr_finishes
  | |- (if _ then Ret _ else Ret _) ≠ Unfinished => by case_match
  | |- Ret _ ≠ Unfinished => done
  end.

Lemma callstack_text_finishes l callers n i :
  callstack_text val pal pkgdir l callers n i ≠ Unfinished.
Proof.
  revert i. induction n as [|n IH]; intros i; [done|].
  cbn [callstack_text].
  destruct (getOccurrence pkgdir l (in_output pkgdir 277 :: callers) i)
    as [[[file fn] line] ok].
  destruct ok; unfold negb; cbv beta iota; [|done].
  repeat finishes_step. apply IH.
Qed.

(** No budget of the model is ever the reason a record is not formatted. *)
Lemma record_text_finishes l prefix now data callers :
  record_text val pal pkgdir l prefix now data callers ≠ Unfinished.
Proof.
  unfold record_text, timestamp_text, location_text.
  destruct (getOccurrence pkgdir l (in_output pkgdir 249 :: callers) 0)
    as [[[file fn] line] ok].
  cbv beta iota. repeat finishes_step. apply callstack_text_finishes.
Qed.

Lemma then_text_assoc r1 r2 r3 : (r1 +++ r2) +++ r3 = r1 +++ r2 +++ r3.
Proof.
  destruct r1 as [d1| |]; [|done..]. destruct r2 as [d2| |]; [|done..].
  destruct r3 as [d3| |]; [|done..]. unfold then_text; simpl. by rewrite app_assoc.
Qed.

Lemma then_text_nil r : r +++ Ret [] = r.
Proof. destruct r; [|done..]. unfold then_text; simpl. by rewrite app_nil_r. Qed.

Lemma callstack_text_lines l callers n i :
  ∃ k, (k ≤ n)%nat
    ∧ (∀ j, (j < k)%nat → frame_there pkgdir l callers (i + Z.of_nat j) = true)
    ∧ ((k < n)%nat → frame_there pkgdir l callers (i + Z.of_nat k) = false)
    ∧ callstack_text val pal pkgdir l callers n i = lines_text val pal pkgdir l callers k i.
Proof.
  revert i. induction n as [|n IH]; intros i.
  { exists 0%nat. repeat split; lia. }
  cbn [callstack_text]. unfold frame_there in *.
  destruct (getOccurrence pkgdir l (in_output pkgdir 277 :: callers) i)
    as [[[file fn] line] ok] eqn:Hg.
  destruct ok; unfold negb; cbv beta iota.
  - destruct (IH (i + 1)) as (k & Hk & Hyes & Hno & Htext).
    exists (S k). split; [lia|]. split; [|split].
    + intros [|j] Hj.
      * by rewrite Z.add_0_r, Hg.
      * replace (i + Z.of_nat (S j)) with (i + 1 + Z.of_nat j) by lia.
        apply Hyes. lia.
    + intros Hlt. replace (i + Z.of_nat (S k)) with (i + 1 + Z.of_nat k) by lia.
      apply Hno. lia.
    + cbn [lines_text]. unfold line_text. rewrite Hg, Htext.
      by rewrite !then_text_assoc.
  - exists 0%nat. split; [lia|]. split; [intros; lia|]. split; [|done].
    intros _. by rewrite Z.add_0_r, Hg.
Qed.

Lemma output_quiet l prefix data callers w :
  quiet l = true →
  output val growslice pal pkgdir l prefix data callers w = Ret (None, l, w).
Proof. intros Hq. unfold output, IsQuiet. by rewrite Hq. Qed.

(** One pass of a logger that is not quiet: one reading of the clock, the
    record formatted, one [Write] of it. *)
Lemma output_loud l prefix data callers w :
  quiet l = false →
  match record_text val pal pkgdir l prefix (clock w (ticks w)) data callers with
  | Ret d =>
      ∃ h' b',
        output val growslice pal pkgdir l prefix data callers w
        = Ret (write_error w (out l), with_buf b' l, after_pass h' (out l) d w)
  | IndexOutOfRange i =>
      output val growslice pal pkgdir l prefix data callers w = IndexOutOfRange i
  | Unfinished =>
      output val growslice pal pkgdir l prefix data callers w = Unfinished
  end.
Proof.
  intros Hq. unfold output, IsQuiet. rewrite Hq. unfold time_Now.
  cbv beta iota zeta. cbn [mem clock ticks].
  pose proof (format_record_emits l prefix (clock w (ticks w)) data callers (mem w, buf l)) as H.
  destruct (record_text val pal pkgdir l prefix (clock w (ticks w)) data callers) as [d| |].
  - destruct H as ([h' b'] & -> & <-). exists h', b'. reflexivity.
  - by rewrite H.
  - by rewrite H.
Qed.

Lemma then_text_skip r' r : when_text false r' +++ r = r.
Proof. by destruct r. Qed.

(** The record of a pass under the TRACE prefix: the prefix, the
    timestamp, the message with its newline, and the dump. *)
Lemma trace_record_text l now msg callers :
  record_text val pal pkgdir l (TracePrefix pal) now msg callers
  = (if color l then Ret (Color (TracePrefix pal)) else Ret (Plain (TracePrefix pal))) +++
    when_text (timestamp l) (timestamp_text val pal (color l) now) +++
    Ret msg +++
    when_text (bool_decide (last msg ≠ Some ch_newline)) (Ret [ch_newline]) +++
    callstack_text val pal pkgdir l callers 50 0.
Proof.
  unfold record_text.
  change (File (TracePrefix pal)) with false.
  change (Callstack (TracePrefix pal)) with true.
  by rewrite then_text_skip.
Qed.

(** C8. Every pass of [output] under the TRACE prefix on a logger that is
    not quiet, however deep the stack it is called from, terminates: it
    returns having written one record, or it panics in an [AppendInt] of
    the record.  The record is the prefix, the timestamp and the message
    followed by [k] lines of the dump, for a [k] that is at most 50: one
    line for each of the first [k] frames, all of them there, and when [k]
    is below 50 the frame after the last line is not there. *)
Theorem callstack_dump_bounded (l : Logger) (msg : list Z) (callers : list Frame)
    (w : World) :
  quiet l = false →
  ∃ k, (k ≤ 50)%nat
    ∧ (∀ j, (j < k)%nat → frame_there pkgdir l callers (Z.of_nat j) = true)
    ∧ ((k < 50)%nat → frame_there pkgdir l callers (Z.of_nat k) = false)
    ∧ match
        (if color l then Ret (Color (TracePrefix pal)) else Ret (Plain (TracePrefix pal))) +++
        when_text (timestamp l) (timestamp_text val pal (color l) (clock w (ticks w))) +++
        Ret msg +++
        when_text (bool_decide (last msg ≠ Some ch_newline)) (Ret [ch_newline]) +++
        lines_text val pal pkgdir l callers k 0
      with
      | Ret d =>
          ∃ h' b',
            output val growslice pal pkgdir l (TracePrefix pal) msg callers w
            = Ret (write_error w (out l), with_buf b' l, after_pass h' (out l) d w)
      | IndexOutOfRange i =>
          output val growslice pal pkgdir l (TracePrefix pal) msg callers w
          = IndexOutOfRange i
      | Unfinished => False
      end.
Proof.
  intros Hq.
  destruct (callstack_text_lines l callers 50 0) as (k & Hk & Hyes & Hno & Htext).
  exists k. repeat split; try done.
  pose proof (output_loud l (TracePrefix pal) msg callers w Hq) as HL.
  pose proof (record_text_finishes l (TracePrefix pal) (clock w (ticks w))
                msg callers) as Hfin.
  rewrite trace_record_text, Htext in HL, Hfin.
  by destruct (_ +++ _).
Qed.

Lemma Output_no_file l prefix data callers w :
  logFile l = None →
  Output val growslice pal pkgdir l prefix data callers w
  = output val growslice pal pkgdir l prefix data (in_Output pkgdir 205 :: callers) w.
Proof. intros H. unfold Output. by rewrite H. Qed.

(** The two passes of a logger with a file. *)
Lemma Output_file l prefix data callers w f :
  logFile l = Some f → quiet l = false →
  match record_text val pal pkgdir (with_out f (with_color false l)) prefix
          (clock w (ticks w)) data (in_Output pkgdir 201 :: callers) with
  | Ret fb =>
      if broken w f then
        ∃ h1,
          Output val growslice pal pkgdir l prefix data callers w
          = Ret (Some (WriteError f), l, after_pass h1 f fb w)
      else
        match record_text val pal pkgdir l prefix
                (clock w (S (ticks w))) data (in_Output pkgdir 205 :: callers) with
        | Ret pb =>
            ∃ h1 h2 b2,
              Output val growslice pal pkgdir l prefix data callers w
              = Ret (write_error w (out l), with_buf b2 l,
                     after_pass h2 (out l) pb (after_pass h1 f fb w))
        | IndexOutOfRange i =>
            Output val growslice pal pkgdir l prefix data callers w = IndexOutOfRange i
        | Unfinished =>
            Output val growslice pal pkgdir l prefix data callers w = Unfinished
        end
  | IndexOutOfRange i =>
      Output val growslice pal pkgdir l prefix data callers w = IndexOutOfRange i
  | Unfinished =>
      Output val growslice pal pkgdir l prefix data callers w = Unfinished
  end.
Proof.
  intros Hf Hq. unfold Output. rewrite Hf. cbv zeta.
  pose proof (output_loud (with_out f (with_color false l)) prefix data
                (in_Output pkgdir 201 :: callers) w Hq) as H1.
  destruct (record_text val pal pkgdir (with_out f (with_color false l)) prefix
              (clock w (ticks w)) data (in_Output pkgdir 201 :: callers)) as [fb| |];
    [|by rewrite H1..].
  destruct H1 as (h1 & b1 & ->). cbn [mbind run_bind out with_out].
  destruct (broken w f) eqn:Hbr.
  - replace (write_error w f) with (Some (WriteError f))
      by (unfold write_error; by rewrite Hbr).
    by exists h1.
  - replace (write_error w f) with (@None error)
      by (unfold write_error; by rewrite Hbr).
    pose proof (output_loud l prefix data (in_Output pkgdir 205 :: callers)
                  (after_pass h1 f fb w) Hq) as H2.
    cbn [after_pass clock ticks] in H2.
    destruct (record_text val pal pkgdir l prefix (clock w (S (ticks w))) data
                (in_Output pkgdir 205 :: callers)) as [pb| |]; [|done..].
    destruct H2 as (h2 & b2 & ->). by exists h1, h2, b2.
Qed.

End Pipeline_facts.

(** ** Severity methods *)

Section Emission_facts.

Variable val : Z.
Variable growslice : nat → nat → nat.
Variable pal : Palette.
Variable Sprintf : list Z → list (list Z) → list Z.
Variable pkgdir : list Z.
Context {rt : Runtime}.

Lemma plain_record_text l prefix now data callers :
  color l = false → timestamp l = false →
  File prefix = false → Callstack prefix = false →
  record_text val pal pkgdir l prefix now data callers
  = Ret (Plain prefix ++ with_newline data).
Proof.
  intros Hc Ht Hf Hs. unfold record_text, with_newline.
  rewrite Hc, Ht, Hf, Hs. simpl.
  destruct (decide (last data = Some ch_newline)) as [He|He].
  - rewrite (bool_decide_eq_true_2 _ He), bool_decide_eq_false_2
      by (intros Hn; by apply Hn).
    simpl. by rewrite ?app_nil_r.
  - rewrite (bool_decide_eq_false_2 _ He), bool_decide_eq_true_2 by done.
    simpl. by rewrite ?app_nil_r.
Qed.

(** C4. On a logger that is not quiet, with timestamp and colour disabled
    and no file, [Info("hello")] makes one [Write] to the primary
    destination of exactly the bytes ["[INFO]  hello\n"]; the prefix is
    eight bytes long; and whatever message [Output] is given under the
    INFO prefix is written with one newline added when it does not end in
    one, and none added when it does. *)
Theorem Info_hello (l : Logger) (stack : list Frame) (w : World) :
  quiet l = false → timestamp l = false → color l = false → logFile l = None →
  (∃ h' b',
     Info val growslice pal pkgdir l [bytes_of "hello"] stack w
     = Ret (with_buf b' l,
            after_pass h' (out l) (bytes_of "[INFO]  hello" ++ [ch_newline]) w))
  ∧ length plainInfo = 8%nat
  ∧ (∀ data callers,
       ∃ h' b',
         Output val growslice pal pkgdir l (InfoPrefix pal) data callers w
         = Ret (write_error w (out l), with_buf b' l,
                after_pass h' (out l) (plainInfo ++ with_newline data) w))
  ∧ (∀ data, last data ≠ Some ch_newline →
       with_newline data = data ++ [ch_newline])
  ∧ (∀ data, with_newline (data ++ [ch_newline]) = data ++ [ch_newline]).
Proof.
  intros Hq Ht Hc Hf.
  assert (HO : ∀ data callers,
       ∃ h' b',
         Output val growslice pal pkgdir l (InfoPrefix pal) data callers w
         = Ret (write_error w (out l), with_buf b' l,
                after_pass h' (out l) (plainInfo ++ with_newline data) w)).
  { intros data callers. rewrite Output_no_file by done.
    pose proof (output_loud val growslice pal pkgdir l (InfoPrefix pal) data
                  (in_Output pkgdir 205 :: callers) w Hq) as H.
    rewrite plain_record_text in H by done. exact H. }
  split; [|split; [done|split; [done|split]]].
  - destruct (HO (Sprintln [bytes_of "hello"]) (in_method pkgdir "Info" 353 :: stack))
      as (h' & b' & HI).
    exists h', b'. unfold Info. rewrite HI. reflexivity.
  - intros data Hd. unfold with_newline. by rewrite bool_decide_eq_false_2.
  - intros data. unfold with_newline.
    rewrite bool_decide_eq_true_2; [by rewrite app_nil_r|]. by rewrite last_snoc.
Qed.


(** A severity method of a logger that is not quiet and has no file: one
    [Write] of the record to the primary destination. *)
Lemma method_writes l prefix data callers w d :
  quiet l = false → logFile l = None →
  record_text val pal pkgdir l prefix (clock w (ticks w)) data
    (in_Output pkgdir 205 :: callers) = Ret d →
  ∃ h' b',
    dropped (Output val growslice pal pkgdir l prefix data callers w)
    = Ret (with_buf b' l, after_pass h' (out l) d w).
Proof.
  intros Hq Hf Hd. rewrite Output_no_file by done.
  pose proof (output_loud val growslice pal pkgdir l prefix data
                (in_Output pkgdir 205 :: callers) w Hq) as HL.
  rewrite Hd in HL. destruct HL as (h' & b' & ->). by exists h', b'.
Qed.

(** C7. With debug disabled, [Debug], [Debugf], [Trace] and [Tracef] return
    the logger and the world as they were, whatever the quiet flag and the
    call stack are: nothing is written, no clock is read, no frame is
    resolved.  With debug enabled, [Debug] and [Trace] are [Output] under
    their prefix, as [Info] is under its own: on a logger that is not quiet
    and has no file, each writes its record to the primary destination in
    one [Write]. *)
Theorem debug_gating (l : Logger) (format : list Z) (v : list (list Z))
    (stack : list Frame) (w : World) :
  Debug val growslice pal pkgdir (WithoutDebug l) v stack w = Ret (WithoutDebug l, w)
  ∧ Debugf val growslice pal Sprintf pkgdir (WithoutDebug l) format v stack w
    = Ret (WithoutDebug l, w)
  ∧ Trace val growslice pal pkgdir (WithoutDebug l) v stack w = Ret (WithoutDebug l, w)
  ∧ Tracef val growslice pal Sprintf pkgdir (WithoutDebug l) format v stack w
    = Ret (WithoutDebug l, w)
  ∧ Debug val growslice pal pkgdir (WithDebug l) v stack w
    = dropped (Output val growslice pal pkgdir (WithDebug l) (DebugPrefix pal) (Sprintln v)
                 (in_method pkgdir "Debug" 364 :: stack) w)
  ∧ Trace val growslice pal pkgdir (WithDebug l) v stack w
    = dropped (Output val growslice pal pkgdir (WithDebug l) (TracePrefix pal) (Sprintln v)
                 (in_method pkgdir "Trace" 378 :: stack) w)
  ∧ Info val growslice pal pkgdir l v stack w
    = dropped (Output val growslice pal pkgdir l (InfoPrefix pal) (Sprintln v)
                 (in_method pkgdir "Info" 353 :: stack) w)
  ∧ (quiet l = false → logFile l = None →
     (∀ d,
        record_text val pal pkgdir (WithDebug l) (DebugPrefix pal) (clock w (ticks w))
          (Sprintln v) (in_Output pkgdir 205 :: in_method pkgdir "Debug" 364 :: stack)
        = Ret d →
        ∃ h' b',
          Debug val growslice pal pkgdir (WithDebug l) v stack w
          = Ret (with_buf b' (WithDebug l), after_pass h' (out l) d w))
     ∧ (∀ d,
          record_text val pal pkgdir (WithDebug l) (TracePrefix pal) (clock w (ticks w))
            (Sprintln v) (in_Output pkgdir 205 :: in_method pkgdir "Trace" 378 :: stack)
          = Ret d →
          ∃ h' b',
            Trace val growslice pal pkgdir (WithDebug l) v stack w
            = Ret (with_buf b' (WithDebug l), after_pass h' (out l) d w))).
Proof.
  do 7 (split; [reflexivity|]).
  intros Hq Hf. split; intros d Hd.
  - apply (method_writes (WithDebug l) (DebugPrefix pal) (Sprintln v)
             (in_method pkgdir "Debug" 364 :: stack) w d); done.
  - apply (method_writes (WithDebug l) (TracePrefix pal) (Sprintln v)
             (in_method pkgdir "Trace" 378 :: stack) w d); done.
Qed.

(** [Output] hands back the logger it was given, but for the slice header
    of its buffer. *)
Lemma Output_keeps_logger l prefix data callers w e l' w' :
  Output val growslice pal pkgdir l prefix data callers w = Ret (e, l', w') →
  l' = with_buf (buf l') l.
Proof.
  intros H. destruct (quiet l) eqn:Hq.
  - assert (HO : Output val growslice pal pkgdir l prefix data callers w = Ret (None, l, w)).
    { unfold Output. destruct (logFile l) as [f|]; cbv zeta;
        rewrite ?output_quiet by done; [|done].
      cbn [mbind run_bind]. by rewrite output_quiet. }
    rewrite HO in H. injection H as <- <- <-. by destruct l.
  - destruct (logFile l) as [f|] eqn:Hf.
    + pose proof (Output_file val growslice pal pkgdir l prefix data callers w f Hf Hq) as HF.
      destruct (record_text _ _ _ (with_out f _) _ _ _ _) as [fb| |]; [|congruence..].
      destruct (broken w f).
      * destruct HF as (h1 & HF). rewrite HF in H. injection H as <- <- <-. by destruct l.
      * destruct (record_text _ _ _ l _ _ _ _) as [pb| |]; [|congruence..].
        destruct HF as (h1 & h2 & b2 & HF). rewrite HF in H. by injection H as <- <- <-.
    + rewrite Output_no_file in H by done.
      pose proof (output_loud val growslice pal pkgdir l prefix data
                    (in_Output pkgdir 205 :: callers) w Hq) as HL.
      destruct (record_text _ _ _ _ _ _ _ _) as [d| |]; [|congruence..].
      destruct HL as (h' & b' & HL). rewrite HL in H. by injection H as <- <- <-.
Qed.

(** The budget of the model is never the reason [Output] does not return:
    the only other outcome is a panic of [AppendInt]. *)
Lemma Output_finishes l prefix data callers w :
  Output val growslice pal pkgdir l prefix data callers w ≠ Unfinished.
Proof.
  destruct (quiet l) eqn:Hq.
  - unfold Output. destruct (logFile l) as [f|]; cbv zeta;
      rewrite ?output_quiet by done; [|done].
    cbn [mbind run_bind]. by rewrite output_quiet.
  - destruct (logFile l) as [f|] eqn:Hf.
    + pose proof (Output_file val growslice pal pkgdir l prefix data callers w f Hf Hq) as HF.
      pose proof (record_text_finishes val pal pkgdir (with_out f (with_color false l)) prefix
                    (clock w (ticks w)) data (in_Output pkgdir 201 :: callers)).
      pose proof (record_text_finishes val pal pkgdir l prefix
                    (clock w (S (ticks w))) data (in_Output pkgdir 205 :: callers)).
      destruct (record_text _ _ _ (with_out f _) _ _ _ _) as [fb| |];
        [|congruence..].
      destruct (broken w f).
      * destruct HF as (h1 & ->). done.
      * destruct (record_text _ _ _ l _ _ _ _) as [pb| |]; [|congruence..].
        destruct HF as (h1 & h2 & b2 & ->). done.
    + rewrite Output_no_file by done.
      pose proof (output_loud val growslice pal pkgdir l prefix data
                    (in_Output pkgdir 205 :: callers) w Hq) as HL.
      pose proof (record_text_finishes val pal pkgdir l prefix
                    (clock w (ticks w)) data (in_Output pkgdir 205 :: callers)).
      destruct (record_text _ _ _ _ _ _ _ _) as [d| |]; [|congruence..].
      destruct HL as (h' & b' & ->). done.
Qed.

(** X2. An emission changes nothing of the configuration: the logger [Output]
    hands back has the depth, colour, destination, flags and file of the
    logger it was called on. *)
Theorem Output_keeps_configuration (l : Logger) (prefix : Prefix) (data : list Z)
    (callers : list Frame) (w : World) (e : option error) (l' : Logger) (w' : World) :
  Output val growslice pal pkgdir l prefix data callers w = Ret (e, l', w') →
  depth l' = depth l ∧ color l' = color l ∧ out l' = out l ∧ debug l' = debug l
  ∧ timestamp l' = timestamp l ∧ quiet l' = quiet l ∧ logFile l' = logFile l
  ∧ clock w' = clock w ∧ broken w' = broken w ∧ exited w' = exited w.
Proof.
  intros H. pose proof (Output_keeps_logger _ _ _ _ _ _ _ _ H) as Hl.
  rewrite Hl. repeat (split; [reflexivity|]).
  destruct (quiet l) eqn:Hq.
  - assert (HO : Output val growslice pal pkgdir l prefix data callers w = Ret (None, l, w)).
    { unfold Output. destruct (logFile l) as [f|]; cbv zeta;
        rewrite ?output_quiet by done; [|done].
      cbn [mbind run_bind]. by rewrite output_quiet. }
    rewrite HO in H. by injection H as <- <- <-.
  - destruct (logFile l) as [f|] eqn:Hf.
    + pose proof (Output_file val growslice pal pkgdir l prefix data callers w f Hf Hq) as HF.
      destruct (record_text _ _ _ (with_out f _) _ _ _ _) as [fb| |]; [|congruence..].
      destruct (broken w f).
      * destruct HF as (h1 & HF). rewrite HF in H. by injection H as <- <- <-.
      * destruct (record_text _ _ _ l _ _ _ _) as [pb| |]; [|congruence..].
        destruct HF as (h1 & h2 & b2 & HF). rewrite HF in H. by injection H as <- <- <-.
    + rewrite Output_no_file in H by done.
      pose proof (output_loud val growslice pal pkgdir l prefix data
                    (in_Output pkgdir 205 :: callers) w Hq) as HL.
      destruct (record_text _ _ _ _ _ _ _ _) as [d| |]; [|congruence..].
      destruct HL as (h' & b' & HL). rewrite HL in H. by injection H as <- <- <-.
Qed.

(** C3, as the code has it.  On a logger with a file that is not quiet, an
    emission that returns wrote to the file first: one [Write] of the
    record formatted with colour off.  That record is the same for every
    palette and every colour setting of the logger: the colour of the
    logger has no part in it.  What the message, the names of the frames
    and [AppendInt] put into it is written as it is.  When this [Write]
    reports an error, [Output] returns it and the primary destination gets
    no [Write]; otherwise the primary destination gets exactly one, after
    the file. *)
Theorem Output_file_then_primary (l : Logger) (prefix : Prefix) (data : list Z)
    (callers : list Frame) (w : World) (f : nat)
    (e : option error) (l' : Logger) (w' : World) :
  logFile l = Some f → quiet l = false →
  Output val growslice pal pkgdir l prefix data callers w = Ret (e, l', w') →
  ∃ fb,
    record_text val pal pkgdir (with_out f (with_color false l)) prefix
      (clock w (ticks w)) data (in_Output pkgdir 201 :: callers) = Ret fb
    ∧ (∀ pal' c prefix',
         Plain prefix' = Plain prefix → File prefix' = File prefix →
         Callstack prefix' = Callstack prefix →
         record_text val pal' pkgdir (with_out f (with_color false (with_color c l))) prefix'
           (clock w (ticks w)) data (in_Output pkgdir 201 :: callers) = Ret fb)
    ∧ (broken w f = true →
         e = Some (WriteError f) ∧ written w' = written w ++ [(f, fb)])
    ∧ (broken w f = false →
         ∃ pb,
           record_text val pal pkgdir l prefix
             (clock w (S (ticks w))) data (in_Output pkgdir 205 :: callers) = Ret pb
           ∧ e = write_error w (out l)
           ∧ written w' = written w ++ [(f, fb); (out l, pb)]).
Proof.
  intros Hf Hq H.
  pose proof (Output_file val growslice pal pkgdir l prefix data callers w f Hf Hq) as HF.
  destruct (record_text val pal pkgdir (with_out f (with_color false l)) prefix
              (clock w (ticks w)) data (in_Output pkgdir 201 :: callers))
    as [fb| |] eqn:Hfb; [|congruence..].
  exists fb. split; [done|]. split.
  { intros pal' c prefix' HP HFi HS. rewrite <- Hfb. symmetry.
    by apply record_text_plain. }
  destruct (broken w f).
  - destruct HF as (h1 & HF). rewrite HF in H. injection H as <- <- <-.
    split; [done|]. intros [=].
  - split; [intros [=]|]. intros _.
    destruct (record_text val pal pkgdir l prefix (clock w (S (ticks w))) data
                (in_Output pkgdir 205 :: callers)) as [pb| |]; [|congruence..].
    destruct HF as (h1 & h2 & b2 & HF). rewrite HF in H. injection H as <- <- <-.
    exists pb. repeat split. cbn [after_pass written]. by rewrite <- app_assoc.
Qed.

(** C2, as the code has it.  Each pass reads the clock and resolves the
    frames for itself.  When the two readings are the same instant, and the
    frames resolved lie above [Output] (a depth of one or more) or the
    prefix asks for none, the bytes written to the primary destination are
    the bytes written to the file but for colour escapes. *)
Theorem Output_passes_agree (l : Logger) (prefix : Prefix) (data : list Z)
    (callers : list Frame) (w : World) (f : nat)
    (e : option error) (l' : Logger) (w' : World) :
  prefix ∈ severities pal →
  logFile l = Some f → quiet l = false → broken w f = false →
  clock w (S (ticks w)) = clock w (ticks w) →
  (1 ≤ depth l ≤ 2 ^ 62 ∨ (File prefix = false ∧ Callstack prefix = false)) →
  Output val growslice pal pkgdir l prefix data callers w = Ret (e, l', w') →
  ∃ fb pb,
    written w' = written w ++ [(f, fb); (out l, pb)] ∧ uncoloured pal pb fb.
Proof.
  intros Hp Hf Hq Hbr Hclock Hframes H.
  pose proof (Output_file val growslice pal pkgdir l prefix data callers w f Hf Hq) as HF.
  pose proof (record_text_agree val pal pkgdir l f prefix (clock w (ticks w)) data callers
                Hp Hframes) as Hag.
  rewrite Hbr, Hclock in HF.
  destruct (record_text val pal pkgdir (with_out f (with_color false l)) prefix
              (clock w (ticks w)) data (in_Output pkgdir 201 :: callers))
    as [fb| |]; [|congruence..].
  destruct (record_text val pal pkgdir l prefix (clock w (ticks w)) data
              (in_Output pkgdir 205 :: callers)) as [pb| |]; [|congruence..].
  destruct HF as (h1 & h2 & b2 & HF). rewrite HF in H. injection H as <- <- <-.
  exists fb, pb. split; [|exact Hag].
  cbn [after_pass written]. by rewrite <- app_assoc.
Qed.


End Emission_facts.

(** ** [AppendInt] as line 26 has it *)

Lemma left_in_empty_AppendInt val growslice v w :
  left_in_empty (AppendInt val growslice v w) = AppendInt_repr val v w.
Proof.
  unfold left_in_empty.
  pose proof (emits_AppendInt growslice val v w (∅, nil_Buffer)) as H.
  destruct (AppendInt_repr val v w) as [d| |].
  - destruct H as (s' & Hs & _ & Hb); [unfold slice_ok; simpl; lia|].
    rewrite Hs. cbn [mbind run_bind]. by rewrite Hb.
  - rewrite H; [done|unfold slice_ok; simpl; lia].
  - rewrite H; [done|unfold slice_ok; simpl; lia].
Qed.

(** X1. A value of one digit, with no padding asked for, is appended as that
    digit whatever [val] is: the loop is not entered.  In particular 0 is
    appended as ["0"], never as nothing. *)
Theorem AppendInt_single_digit (val : Z) (growslice : nat → nat → nat) (v w : Z) :
  0 ≤ v < 10 → w ≤ 1 →
  left_in_empty (AppendInt val growslice v w) = Ret [ch_zero + v].
Proof.
  intros Hv Hw. rewrite left_in_empty_AppendInt. by apply AppendInt_repr_digit.
Qed.

Lemma AppendInt_single_digit_witness :
  (0 ≤ 0 < 10) ∧ 0 ≤ 1
  ∧ left_in_empty (AppendInt 2024 doubling 0 0) = Ret (bytes_of "0").
Proof.
  split; [lia|]. split; [lia|].
  apply (AppendInt_single_digit 2024 doubling 0 0); lia.
Defined.

(** C1, at the year.  Whatever integer [val] is, [AppendInt(2024, 4)] does
    not append ["2024"]: the quotient of line 26 is that of [val], not of
    the running value, so the second and the third turn store the same
    byte (or the loop runs out of the array). *)
Theorem AppendInt_2024_is_not_decimal (val : Z) (growslice : nat → nat → nat) :
  left_in_empty (AppendInt val growslice 2024 4) ≠ Ret (bytes_of "2024").
Proof. rewrite left_in_empty_AppendInt. apply AppendInt_repr_2024. Qed.




(** ** Instances *)

Lemma Info_hello_witness :
  quiet plain_logger = false ∧ timestamp plain_logger = false
  ∧ color plain_logger = false ∧ logFile plain_logger = None
  ∧ ∃ h' b',
      Info 0 doubling ansi builddir plain_logger [bytes_of "hello"] main_stack
        (world stopped sound)
      = Ret (with_buf b' plain_logger,
             after_pass h' 1 (bytes_of "[INFO]  hello" ++ [ch_newline]) (world stopped sound)).
Proof.
  repeat (split; [reflexivity|]).
  apply (Info_hello 0 doubling ansi builddir plain_logger main_stack (world stopped sound));
    reflexivity.
Defined.

(** An emission that returns does so with some error, logger and world. *)
Ltac returns_some := vm_compute; do 3 eexists; reflexivity.

Lemma callstack_dump_bounded_witness :
  quiet plain_logger = false
  ∧ ∃ d h' b',
      lines_text 0 ansi builddir plain_logger
        (in_Output builddir 205 :: in_method builddir "Trace" 378 :: main_stack) 3 0 = Ret d
      ∧ output 0 doubling ansi builddir plain_logger (TracePrefix ansi) (bytes_of "x")
          (in_Output builddir 205 :: in_method builddir "Trace" 378 :: main_stack)
          (world stopped sound)
        = Ret (None, with_buf b' plain_logger,
               after_pass h' 1 (bytes_of "[TRACE] x" ++ [ch_newline] ++ d)
                 (world stopped sound)).
Proof.
  split; [reflexivity|].
  destruct (callstack_dump_bounded 0 doubling ansi builddir plain_logger (bytes_of "x")
              (in_Output builddir 205 :: in_method builddir "Trace" 378 :: main_stack)
              (world stopped sound) eq_refl) as (k & Hk & Hyes & Hno & Hout).
  assert (k = 3%nat) as ->.
  { destruct k as [|[|[|[|k]]]]; [..|reflexivity|].
    - specialize (Hno ltac:(lia)). discriminate Hno.
    - specialize (Hno ltac:(lia)). discriminate Hno.
    - specialize (Hno ltac:(lia)). discriminate Hno.
    - specialize (Hyes 3%nat ltac:(lia)). discriminate Hyes. }
  assert (∃ d, lines_text 0 ansi builddir plain_logger
                 (in_Output builddir 205 :: in_method builddir "Trace" 378 :: main_stack)
                 3 0 = Ret d) as (d & Hd) by (vm_compute; eexists; reflexivity).
  exists d. rewrite Hd in Hout. destruct Hout as (h' & b' & Hout).
  exists h', b'. split; [exact Hd|exact Hout].
Defined.

Lemma Output_file_then_primary_witness :
  logFile file_logger = Some 2%nat ∧ quiet file_logger = false
  ∧ ∃ fb pb,
      writes_of (Output 0 doubling ansi builddir file_logger (InfoPrefix ansi)
                   (bytes_of "hello") main_stack (world stopped sound))
      = Some [(2%nat, fb); (1%nat, pb)].
Proof.
  split; [reflexivity|]. split; [reflexivity|].
  assert (∃ e l' w',
            Output 0 doubling ansi builddir file_logger (InfoPrefix ansi)
              (bytes_of "hello") main_stack (world stopped sound) = Ret (e, l', w'))
    as (e & l' & w' & HO) by returns_some.
  destruct (Output_file_then_primary 0 doubling ansi builddir file_logger (InfoPrefix ansi)
              (bytes_of "hello") main_stack (world stopped sound) 2%nat e l' w'
              eq_refl eq_refl HO) as (fb & _ & _ & _ & Hsound).
  destruct (Hsound eq_refl) as (pb & _ & _ & Hw).
  exists fb, pb. rewrite HO. unfold writes_of. f_equal. exact Hw.
Defined.

Lemma Output_passes_agree_witness :
  ErrorPrefix ansi ∈ severities ansi
  ∧ clock (world stopped sound) 1 = clock (world stopped sound) 0
  ∧ 1 ≤ depth coloured_file_logger ≤ 2 ^ 62
  ∧ ∃ fb pb,
      writes_of (Output 0 doubling ansi builddir coloured_file_logger (ErrorPrefix ansi)
                   (bytes_of "boom") (in_method builddir "Error" 333 :: main_stack)
                   (world stopped sound))
      = Some [(2%nat, fb); (1%nat, pb)]
      ∧ uncoloured ansi pb fb.
Proof.
  assert (Hsev : ErrorPrefix ansi ∈ severities ansi).
  { unfold severities. apply list_elem_of_In. right. left. reflexivity. }
  assert (Hdepth : 1 ≤ depth coloured_file_logger ≤ 2 ^ 62) by (simpl; lia).
  split; [exact Hsev|]. split; [reflexivity|]. split; [exact Hdepth|].
  assert (∃ e l' w',
            Output 0 doubling ansi builddir coloured_file_logger (ErrorPrefix ansi)
              (bytes_of "boom") (in_method builddir "Error" 333 :: main_stack)
              (world stopped sound) = Ret (e, l', w'))
    as (e & l' & w' & HO) by returns_some.
  destruct (Output_passes_agree 0 doubling ansi builddir coloured_file_logger
              (ErrorPrefix ansi) (bytes_of "boom")
              (in_method builddir "Error" 333 :: main_stack)
              (world stopped sound) 2%nat e l' w'
              Hsev eq_refl eq_refl eq_refl eq_refl (or_introl Hdepth) HO)
    as (fb & pb & Hw & Hu).
  exists fb, pb. rewrite HO. unfold writes_of. split; [f_equal; exact Hw|exact Hu].
Defined.

(** ** Where the two passes differ *)

(** What the two passes write at the default depth, and with a clock that
    moves: the line number and the year are rendered by [AppendInt] as line
    26 has it, with [val] at 0. *)
Lemma passes_differ_bytes :
  writes_of (Error 0 doubling ansi builddir file_logger [bytes_of "boom"] main_stack
               (world stopped sound))
  = Some [(2%nat, bytes_of "[ERROR] colored_logging.(*Logger).Output:log.go:"
                    ++ [48; 249] ++ bytes_of " boom" ++ [ch_newline]);
          (1%nat, bytes_of "[ERROR] colored_logging.(*Logger).Output:log.go:"
                    ++ [48; 253] ++ bytes_of " boom" ++ [ch_newline])]
  ∧ writes_of (Info 0 doubling ansi builddir dated_file_logger [bytes_of "hello"] main_stack
                 (world second_hand sound))
    = Some [(2%nat, bytes_of "[INFO]  " ++ [48; 48; 48; 24]
                      ++ bytes_of "/01/02 03:04:05 hello" ++ [ch_newline]);
            (1%nat, bytes_of "[INFO]  " ++ [48; 48; 48; 24]
                      ++ bytes_of "/01/02 03:04:06 hello" ++ [ch_newline])].
Proof. split; vm_compute; reflexivity. Qed.

Lemma no_escape_in (d : list Z) :
  forallb (λ x, negb (x =? ch_escape)) d = true → ch_escape ∉ d.
Proof.
  intros H Hin. rewrite forallb_forall in H.
  apply list_elem_of_In in Hin. specialize (H _ Hin).
  by rewrite Z.eqb_refl in H.
Qed.

Lemma ansi_escapes : Forall (λ e, head e = Some ch_escape) (escapes ansi).
Proof. unfold escapes. repeat constructor. Qed.

(** With the default depth the frame [getOccurrence] resolves is that of
    [Output] itself: line 201 in the file pass, line 205 in the primary
    pass, and the two records differ.  And with a clock that is a second
    later at the second reading, the two records differ in the timestamp.
    Colour is off in both runs: no escape is in either record. *)
Lemma passes_differ :
  (getOccurrence builddir file_logger
     (in_output builddir 249 :: in_Output builddir 201
        :: in_method builddir "Error" 333 :: main_stack) 0
   = (bytes_of "log.go", bytes_of "colored_logging.(*Logger).Output", 201, true)
   ∧ getOccurrence builddir file_logger
       (in_output builddir 249 :: in_Output builddir 205
          :: in_method builddir "Error" 333 :: main_stack) 0
     = (bytes_of "log.go", bytes_of "colored_logging.(*Logger).Output", 205, true)
   ∧ ∃ fb pb,
       writes_of (Error 0 doubling ansi builddir file_logger [bytes_of "boom"] main_stack
                    (world stopped sound))
       = Some [(2%nat, fb); (1%nat, pb)]
       ∧ ¬ uncoloured ansi pb fb)
  ∧ (clock (world second_hand sound) 0 = mkTime 2024 1 2 3 4 5
     ∧ clock (world second_hand sound) 1 = mkTime 2024 1 2 3 4 6
     ∧ ∃ fb pb,
         writes_of (Info 0 doubling ansi builddir dated_file_logger [bytes_of "hello"]
                      main_stack (world second_hand sound))
         = Some [(2%nat, fb); (1%nat, pb)]
         ∧ ¬ uncoloured ansi pb fb).
Proof.
  destruct passes_differ_bytes as [HA HB].
  split; (split; [vm_compute; reflexivity|]); (split; [vm_compute; reflexivity|]).
  - eexists _, _. split; [exact HA|].
    intros H. apply uncoloured_plain in H; [discriminate H|exact ansi_escapes|].
    apply no_escape_in. vm_compute. reflexivity.
  - eexists _, _. split; [exact HB|].
    intros H. apply uncoloured_plain in H; [discriminate H|exact ansi_escapes|].
    apply no_escape_in. vm_compute. reflexivity.
Qed.

(** ** Where the primary destination gets no [Write], and where the file
    holds an escape sequence *)

(** When the [Write] to the file reports an error, [Output] returns it and
    the primary destination is not written to.  And a message that holds an
    escape sequence is written to the file as it is. *)
Lemma file_pass_alone :
  writes_of (Output 0 doubling ansi builddir file_logger (InfoPrefix ansi)
               (bytes_of "hello") main_stack (world stopped file_full))
  = Some [(2%nat, bytes_of "[INFO]  hello" ++ [ch_newline])]
  ∧ error_of (Output 0 doubling ansi builddir file_logger (InfoPrefix ansi)
                (bytes_of "hello") main_stack (world stopped file_full))
    = Some (Some (WriteError 2))
  ∧ writes_of (Info 0 doubling ansi builddir file_logger [escape "[31mred"] main_stack
                 (world stopped sound))
    = Some [(2%nat, bytes_of "[INFO]  " ++ escape "[31mred" ++ [ch_newline]);
            (1%nat, bytes_of "[INFO]  " ++ escape "[31mred" ++ [ch_newline])].
Proof. repeat split; vm_compute; reflexivity. Qed.

Lemma Output_keeps_configuration_witness :
  ∃ e l' w',
    Output 0 doubling ansi builddir coloured_file_logger (ErrorPrefix ansi)
      (bytes_of "boom") (in_method builddir "Error" 333 :: main_stack)
      (world stopped sound) = Ret (e, l', w')
    ∧ logFile l' = Some 2%nat ∧ quiet l' = false ∧ depth l' = 2.
Proof.
  assert (∃ e l' w',
            Output 0 doubling ansi builddir coloured_file_logger (ErrorPrefix ansi)
              (bytes_of "boom") (in_method builddir "Error" 333 :: main_stack)
              (world stopped sound) = Ret (e, l', w'))
    as (e & l' & w' & HO) by returns_some.
  exists e, l', w'. split; [exact HO|].
  destruct (Output_keeps_configuration 0 doubling ansi builddir coloured_file_logger
              (ErrorPrefix ansi) (bytes_of "boom")
              (in_method builddir "Error" 333 :: main_stack)
              (world stopped sound) e l' w' HO)
    as (Hd & _ & _ & _ & _ & Hq & Hf & _).
  rewrite Hd, Hq, Hf. repeat split.
Defined.

(** * More of [buffer.go] *)

(** ** How many bytes [AppendInt] appends, and how it panics *)

Section AppendInt_length.

Variable val : Z.

(** What the loop leaves when it returns: the array has its length, the
    index went down by one at every turn, and a width of one or more took
    at least [width - 1] turns. *)
Lemma AppendInt_loop_returns fuel repr rc rem w repr' rc' rem' :
  AppendInt_loop val fuel repr rc rem w = Ret (repr', rc', rem') →
  length repr' = length repr ∧ rc' ≤ rc
  ∧ (1 ≤ w < 2 ^ 63 → w - 1 ≤ rc - rc').
Proof.
  revert repr rc rem w.
  induction fuel as [|fuel IH]; intros repr rc rem w H.
  - simpl in H. destruct ((10 <=? rem) || (1 <? w)) eqn:Hc; [done|].
    injection H as <- <- <-. apply orb_false_iff in Hc as [_ Hw].
    apply Z.ltb_ge in Hw. repeat split; lia.
  - destruct ((10 <=? rem) || (1 <? w)) eqn:Hc.
    + rewrite AppendInt_loop_turn in H by done.
      destruct (decide (0 ≤ rc < Z.of_nat (length repr))) as [Hin|Hout].
      * rewrite store_in_range in H by done. cbn [mbind run_bind] in H.
        apply IH in H as (Hlen & Hrc & Hw). rewrite length_insert in Hlen.
        split; [done|]. split; [lia|]. intros Hwidth.
        destruct (decide (w = 1)) as [->|Hne]; [lia|].
        rewrite (int_wrap_small (w - 1)) in Hw by lia. lia.
      * by rewrite store_out_of_range in H.
    + rewrite AppendInt_loop_exit in H by done. injection H as <- <- <-.
      apply orb_false_iff in Hc as [_ Hw]. apply Z.ltb_ge in Hw.
      repeat split; lia.
Qed.

(** The loop panics at index -1 and nowhere else. *)
Lemma AppendInt_loop_panics fuel repr rc rem w i :
  -1 ≤ rc < Z.of_nat (length repr) →
  AppendInt_loop val fuel repr rc rem w = IndexOutOfRange i → i = -1.
Proof.
  revert repr rc rem w.
  induction fuel as [|fuel IH]; intros repr rc rem w Hrc H.
  - simpl in H. by destruct ((10 <=? rem) || (1 <? w)).
  - destruct ((10 <=? rem) || (1 <? w)) eqn:Hc.
    + rewrite AppendInt_loop_turn in H by done.
      destruct (decide (0 ≤ rc < Z.of_nat (length repr))) as [Hin|Hout].
      * rewrite store_in_range in H by done. cbn [mbind run_bind] in H.
        apply IH in H; [done|]. rewrite length_insert. lia.
      * rewrite store_out_of_range in H by done. cbn [mbind run_bind] in H.
        injection H as <-. lia.
    + by rewrite AppendInt_loop_exit in H.
Qed.

Lemma AppendInt_repr_length v w d :
  AppendInt_repr val v w = Ret d →
  (1 ≤ length d ≤ 8)%nat ∧ (1 ≤ w < 2 ^ 63 → w ≤ Z.of_nat (length d)).
Proof.
  unfold AppendInt_repr. intros H.
  destruct (AppendInt_loop val 9 (replicate 8 0) 7 v w) as [[[repr rc] rem]| |] eqn:HL;
    [|done..].
  cbn [mbind run_bind] in H.
  apply AppendInt_loop_returns in HL as (Hlen & Hrc & Hw).
  rewrite length_replicate in Hlen.
  destruct (decide (0 ≤ rc < Z.of_nat (length repr))) as [Hin|Hout].
  - rewrite store_in_range in H by done. cbn [mbind run_bind] in H.
    injection H as <-. rewrite length_drop, length_insert, Hlen. lia.
  - by rewrite store_out_of_range in H.
Qed.

Lemma AppendInt_repr_panics v w i :
  AppendInt_repr val v w = IndexOutOfRange i → i = -1.
Proof.
  unfold AppendInt_repr. intros H.
  destruct (AppendInt_loop val 9 (replicate 8 0) 7 v w) as [[[repr rc] rem]| |] eqn:HL.
  - cbn [mbind run_bind] in H.
    pose proof HL as HL'.
    apply AppendInt_loop_returns in HL as (Hlen & Hrc & _).
    rewrite length_replicate in Hlen.
    destruct (decide (0 ≤ rc < Z.of_nat (length repr))) as [Hin|Hout].
    + by rewrite store_in_range in H.
    + rewrite store_out_of_range in H by done. cbn [mbind run_bind] in H.
      injection H as <-.
      (* the index only goes below zero by the decrement after a store *)
      assert (-1 ≤ rc); [|lia].
      clear Hout Hlen Hrc.
      assert (G : ∀ fuel repr0 rc0 rem0 w0 repr1 rc1 rem1,
                 -1 ≤ rc0 →
                 AppendInt_loop val fuel repr0 rc0 rem0 w0 = Ret (repr1, rc1, rem1) →
                 -1 ≤ rc1).
      { induction fuel as [|fuel IH]; intros repr0 rc0 rem0 w0 repr1 rc1 rem1 H0 HR.
        - simpl in HR. destruct ((10 <=? rem0) || (1 <? w0)); [done|].
          by injection HR as <- <- <-.
        - destruct ((10 <=? rem0) || (1 <? w0)) eqn:Hc.
          + rewrite AppendInt_loop_turn in HR by done.
            destruct (decide (0 ≤ rc0 < Z.of_nat (length repr0))) as [Hin|Hout].
            * rewrite store_in_range in HR by done. cbn [mbind run_bind] in HR.
              apply IH in HR; [done|lia].
            * by rewrite store_out_of_range in HR.
          + rewrite AppendInt_loop_exit in HR by done. by injection HR as <- <- <-. }
      eapply G; [|exact HL']. lia.
  - cbn [mbind run_bind] in H. injection H as <-.
    apply AppendInt_loop_panics in HL; [done|simpl; lia].
  - done.
Qed.

Lemma AppendInt_repr_wide v w :
  9 ≤ w < 2 ^ 63 → AppendInt_repr val v w = IndexOutOfRange (-1).
Proof.
  intros Hw.
  destruct (AppendInt_repr val v w) as [d|i|] eqn:H.
  - apply AppendInt_repr_length in H as [Hlen Hwidth]. lia.
  - apply AppendInt_repr_panics in H. by subst.
  - by apply AppendInt_repr_finishes in H.
Qed.

End AppendInt_length.

Section Buffer_contract.

Variable val : Z.
Variable growslice : nat → nat → nat.

(** X5. Whatever [val] is, an [AppendInt] that returns has appended at least
    one byte and at most eight, and at least [width] bytes when the width
    is one or more: the width is a minimum, the scratch array the maximum. *)
Theorem AppendInt_appends_width_to_eight (v w : Z)
    (s s' : gmap nat (list Z) * Buffer) :
  slice_ok s.1 s.2 →
  AppendInt val growslice v w s = Ret ((), s') →
  ∃ d, Bytes s' = Bytes s ++ d
       ∧ (1 ≤ length d ≤ 8)%nat
       ∧ (1 ≤ w < 2 ^ 63 → w ≤ Z.of_nat (length d)).
Proof.
  intros Hok H.
  pose proof (emits_AppendInt growslice val v w s Hok) as He.
  destruct (AppendInt_repr val v w) as [d| |] eqn:Hd; [|congruence..].
  destruct He as (s1 & Hs1 & _ & Hb). rewrite Hs1 in H. injection H as <-.
  exists d. split; [done|]. by apply AppendInt_repr_length in Hd.
Qed.

(** X6. A width of nine or more cannot be served from the scratch array of
    eight: whatever the value and whatever [val] is, [AppendInt] panics with
    index -1 out of range, and that is the only panic it has. *)
Theorem AppendInt_width_over_eight (v w : Z) (s : gmap nat (list Z) * Buffer) :
  (9 ≤ w < 2 ^ 63 → AppendInt val growslice v w s = IndexOutOfRange (-1))
  ∧ (∀ i, AppendInt val growslice v w s = IndexOutOfRange i → i = -1).
Proof.
  split.
  - intros Hw. unfold AppendInt. by rewrite AppendInt_repr_wide.
  - intros i H. unfold AppendInt in H.
    destruct (AppendInt_repr val v w) as [d|j|] eqn:Hd; [done| |done].
    cbn [mbind run_bind] in H. injection H as <-.
    by apply AppendInt_repr_panics in Hd.
Qed.

(** X7. On every buffer, [Append] and [AppendByte] return, and [Bytes] then
    reads what it read before followed by the bytes given, whether the
    array was grown or not; two [Append]s read as one [Append] of the two
    runs of bytes joined. *)
Theorem Append_appends (d d' : list Z) (x : Z) (s : gmap nat (list Z) * Buffer) :
  slice_ok s.1 s.2 →
  (∃ s1, Append growslice d s = Ret ((), s1)
         ∧ slice_ok s1.1 s1.2 ∧ Bytes s1 = Bytes s ++ d)
  ∧ (∃ s2, AppendByte growslice x s = Ret ((), s2)
           ∧ slice_ok s2.1 s2.2 ∧ Bytes s2 = Bytes s ++ [x])
  ∧ (∃ s3 s4, (Append growslice d;; Append growslice d') s = Ret ((), s3)
              ∧ Append growslice (d ++ d') s = Ret ((), s4)
              ∧ Bytes s3 = Bytes s4).
Proof.
  intros Hok. split; [|split].
  - apply (emits_Append growslice d s Hok).
  - apply (emits_AppendByte growslice x s Hok).
  - pose proof (emits_seq _ _ _ _ (emits_Append growslice d) (emits_Append growslice d')
                  s Hok) as (s3 & H3 & _ & Hb3).
    pose proof (emits_Append growslice (d ++ d') s Hok) as (s4 & H4 & _ & Hb4).
    exists s3, s4. split; [done|]. split; [done|]. by rewrite Hb3, Hb4.
Qed.

End Buffer_contract.

(** ** The array is reused *)

Section Reuse.

Variable val : Z.
Variable growslice : nat → nat → nat.
Variable pal : Palette.
Variable pkgdir : list Z.
Context {rt : Runtime}.

Lemma same_array_refl s : same_array s s.
Proof. by repeat split. Qed.

Lemma same_array_trans s1 s2 s3 :
  same_array s1 s2 → same_array s2 s3 → same_array s1 s3.
Proof.
  intros (Hd1 & Hc1 & Ho1) (Hd2 & Hc2 & Ho2). repeat split; [congruence..|].
  intros q Hq. rewrite Ho2, Ho1; [done..|congruence].
Qed.

Lemma append_in_place h b d :
  (len b + length d ≤ cap h b)%nat →
  same_array (h, b) (append growslice h b d)
  ∧ len (append growslice h b d).2 = (len b + length d)%nat.
Proof.
  intros Hfit. unfold append. case_decide; [|lia].
  destruct b as [[p|] n]; simpl in *.
  - split; [|done]. unfold same_array, cap, backing in *; simpl in *.
    split; [done|]. split.
    + rewrite lookup_insert_eq. simpl.
      rewrite !length_app, length_take, length_drop. lia.
    + intros q Hq. apply lookup_insert_ne. congruence.
  - unfold cap, backing in Hfit; simpl in Hfit.
    split; [apply same_array_refl|simpl; lia].
Qed.

Lemma then_text_Ret r1 r2 d :
  r1 +++ r2 = Ret d → ∃ d1 d2, r1 = Ret d1 ∧ r2 = Ret d2 ∧ d = d1 ++ d2.
Proof.
  destruct r1 as [d1| |]; [|done..]. destruct r2 as [d2| |]; [|done..].
  unfold then_text; simpl. intros [= <-]. by exists d1, d2.
Qed.

Lemma within_ret : within (mret ()) (Ret []).
Proof.
  intros s d [= <-] _ _. exists s. split; [done|]. split; [apply same_array_refl|].
  simpl. lia.
Qed.

Lemma within_seq p q r1 r2 : within p r1 → within q r2 → within (p;; q) (r1 +++ r2).
Proof.
  intros Hp Hq s d Hd Hok Hfit.
  apply then_text_Ret in Hd as (d1 & d2 & -> & -> & ->).
  rewrite length_app in Hfit.
  destruct (Hp s d1 eq_refl Hok) as (s1 & Hs1 & Hsame1 & Hlen1); [lia|].
  pose proof Hsame1 as (_ & Hcap1 & _).
  destruct (Hq s1 d2 eq_refl) as (s2 & Hs2 & Hsame2 & Hlen2).
  { unfold slice_ok. lia. }
  { lia. }
  exists s2. unfold mbind, fmt_bind. rewrite Hs1. split; [done|].
  split; [by eapply same_array_trans|]. rewrite length_app. lia.
Qed.

Lemma within_Append d : within (Append growslice d) (Ret d).
Proof.
  intros [h b] d' [= <-] _ Hfit. eexists. split; [reflexivity|].
  by apply append_in_place.
Qed.

Lemma within_AppendByte x : within (AppendByte growslice x) (Ret [x]).
Proof.
  intros [h b] d' [= <-] _ Hfit. eexists. split; [reflexivity|].
  by apply append_in_place.
Qed.

Lemma within_AppendInt v w :
  within (AppendInt val growslice v w) (AppendInt_repr val v w).
Proof.
  intros [h b] d Hd _ Hfit. unfold AppendInt. rewrite Hd.
  eexists. split; [reflexivity|]. by apply append_in_place.
Qed.

Lemma within_when (c : bool) p r : within p r → within (when c p) (when_text c r).
Proof. destruct c; [done|]. intros _. apply within_ret. Qed.

Lemma within_if (c : bool) p q r1 r2 :
  within p r1 → within q r2 → within (if c then p else q) (if c then r1 else r2).
Proof. by destruct c. Qed.

Ltac within_step :=
  lazymatch goal with
  | |- within (_ ;; _) _ => apply within_seq
  | |- within (when _ _) _ => apply within_when
  | |- within (if _ then _ else _) _ => apply within_if
  | |- within (Append _ _) _ => apply within_Append
  | |- within (AppendByte _ _) _ => apply within_AppendByte
  | |- within (AppendInt _ _ _ _) _ => apply within_AppendInt
  | |- within (mret _) _ => apply within_ret
  end.

Lemma within_calls cs : within (calls growslice cs) (Ret (concat (appended <$> cs))).
Proof.
  induction cs as [|c cs IH]; [apply within_ret|].
  change (within (call growslice c;; calls growslice cs)
            (Ret (appended c) +++ Ret (concat (appended <$> cs)))).
  apply within_seq; [|done]. destruct c; [apply within_Append|apply within_AppendByte].
Qed.

Lemma within_callstack_loop l callers n i :
  within (callstack_loop val growslice pal pkgdir l callers n i)
    (callstack_text val pal pkgdir l callers n i).
Proof.
  revert i. induction n as [|n IH]; intros i; [apply within_ret|].
  cbn [callstack_loop callstack_text].
  destruct (getOccurrence pkgdir l (in_output pkgdir 277 :: callers) i)
    as [[[file fn] line] ok].
  destruct ok; unfold negb; cbv beta iota; [|apply within_ret].
  unfold cb_Gray, cb_Off. repeat within_step. apply IH.
Qed.

(** After [Reset], a run of calls that fits the capacity stays in the array. *)
Lemma within_after_Reset p r s d :
  within p r → r = Ret d → (length d ≤ cap s.1 s.2)%nat →
  ∃ s', (Reset;; p) s = Ret ((), s') ∧ same_array s s' ∧ len s'.2 = length d.
Proof.
  intros Hp Hd Hfit.
  destruct (Hp (s.1, mkBuffer (data s.2) 0) d Hd) as (s' & Hs' & Hsame & Hlen).
  { unfold slice_ok. simpl. lia. }
  { exact Hfit. }
  exists s'. split; [exact Hs'|]. split; [exact Hsame|exact Hlen].
Qed.

Lemma format_record_in_place l prefix now data callers s d :
  record_text val pal pkgdir l prefix now data callers = Ret d →
  (length d ≤ cap s.1 s.2)%nat →
  ∃ s', format_record val growslice pal pkgdir l prefix now data callers s = Ret ((), s')
        ∧ same_array s s' ∧ len s'.2 = length d.
Proof.
  intros Hd Hfit. unfold format_record.
  eapply within_after_Reset; [|exact Hd|exact Hfit].
  unfold record_text, timestamp_text, location_text.
  unfold cb_Blue, cb_Off, cb_Orange.
  destruct (getOccurrence pkgdir l (in_output pkgdir 249 :: callers) 0)
    as [[[file fn] line] ok].
  cbv beta iota. repeat within_step. apply within_callstack_loop.
Qed.

(** X8. A buffer that is reset and then appended to keeps its array as long
    as the bytes fit the capacity it already had: the same array, the same
    capacity, no other array made or touched; [Bytes] reads the bytes
    appended. *)
Theorem Reset_reuses_the_array (cs : list buffer_call)
    (s : gmap nat (list Z) * Buffer) :
  (length (concat (appended <$> cs)) ≤ cap s.1 s.2)%nat →
  ∃ s', (Reset;; calls growslice cs) s = Ret ((), s')
        ∧ data s'.2 = data s.2
        ∧ cap s'.1 s'.2 = cap s.1 s.2
        ∧ (∀ q, data s.2 ≠ Some q → s'.1 !! q = s.1 !! q)
        ∧ Bytes s' = concat (appended <$> cs).
Proof.
  intros Hfit.
  destruct (within_after_Reset _ _ s _ (within_calls cs) eq_refl Hfit)
    as (s' & Hs' & (Hdata & Hcap & Hother) & Hlen).
  exists s'. repeat split; try done.
  destruct (Reset_spec s) as (s0 & HR & Hok & Hb & _).
  destruct (emits_calls growslice cs s0 Hok) as (s1 & Hs1 & _ & Hb1).
  rewrite (after_Reset _ s s0 HR) in Hs'. rewrite Hs1 in Hs'.
  injection Hs' as <-. by rewrite Hb1, Hb.
Qed.

(** X9. One pass of a logger that is not quiet leaves its buffer with a
    capacity of at least the record it wrote; and a pass whose record fits
    the capacity the buffer has does not grow the buffer: [l.buf] keeps its
    array and its capacity, and no other array of the store of buffer
    arrays is made or changed by the appends. *)
Theorem output_reuses_the_buffer (l : Logger) (prefix : Prefix) (msg : list Z)
    (callers : list Frame) (w : World) (d : list Z) :
  quiet l = false →
  record_text val pal pkgdir l prefix (clock w (ticks w)) msg callers = Ret d →
  ∃ h' b',
    output val growslice pal pkgdir l prefix msg callers w
    = Ret (write_error w (out l), with_buf b' l, after_pass h' (out l) d w)
    ∧ (length d ≤ cap h' b')%nat
    ∧ ((length d ≤ cap (mem w) (buf l))%nat →
       data b' = data (buf l)
       ∧ cap h' b' = cap (mem w) (buf l)
       ∧ ∀ q, data (buf l) ≠ Some q → h' !! q = mem w !! q).
Proof.
  intros Hq Hd. unfold output, IsQuiet. rewrite Hq. unfold time_Now.
  cbv beta iota zeta. cbn [mem clock ticks].
  pose proof (format_record_emits val growslice pal pkgdir l prefix
                (clock w (ticks w)) msg callers (mem w, buf l)) as H.
  rewrite Hd in H. destruct H as ([h' b'] & HF & Hb).
  exists h', b'. rewrite HF. subst d. split; [reflexivity|]. split.
  - unfold Bytes, cap. simpl. rewrite length_take. lia.
  - intros Hfit.
    destruct (format_record_in_place l prefix (clock w (ticks w)) msg callers
                (mem w, buf l) _ Hd Hfit) as (s' & HF' & Hsame & _).
    rewrite HF in HF'. injection HF' as <-. exact Hsame.
Qed.

End Reuse.

Lemma AppendInt_appends_width_to_eight_witness :
  slice_ok (∅ : gmap nat (list Z)) nil_Buffer
  ∧ ∃ d, Bytes (append doubling (∅ : gmap nat (list Z)) nil_Buffer (bytes_of "05")) = Bytes (∅, nil_Buffer) ++ d
         ∧ (1 ≤ length d ≤ 8)%nat
         ∧ (1 ≤ 2 < 2 ^ 63 → 2 ≤ Z.of_nat (length d)).
Proof.
  assert (Hok : slice_ok (∅ : gmap nat (list Z)) nil_Buffer)
    by (unfold slice_ok; simpl; lia).
  split; [exact Hok|].
  apply (AppendInt_appends_width_to_eight 0 doubling 5 2 (∅, nil_Buffer) _ Hok).
  vm_compute. reflexivity.
Defined.

Lemma Append_appends_witness :
  slice_ok used_buffer.1 used_buffer.2
  ∧ ∃ s1, Append doubling (bytes_of "!") used_buffer = Ret ((), s1)
          ∧ slice_ok s1.1 s1.2
          ∧ Bytes s1 = bytes_of "old bytes!".
Proof.
  assert (Hok : slice_ok used_buffer.1 used_buffer.2)
    by (unfold slice_ok; vm_compute; lia).
  split; [exact Hok|].
  destruct (Append_appends doubling (bytes_of "!") [] 0 used_buffer Hok)
    as ((s1 & Hs1 & Hok1 & Hb1) & _).
  exists s1. split; [exact Hs1|]. split; [exact Hok1|]. rewrite Hb1. reflexivity.
Defined.

Lemma Reset_reuses_the_array_witness :
  (length (concat (appended <$> [CallAppend (bytes_of "new"); CallAppendByte ch_newline]))
   ≤ cap used_buffer.1 used_buffer.2)%nat
  ∧ ∃ s', (Reset;; calls doubling [CallAppend (bytes_of "new"); CallAppendByte ch_newline])
            used_buffer = Ret ((), s')
          ∧ data s'.2 = Some 5%nat
          ∧ cap s'.1 s'.2 = 9%nat
          ∧ Bytes s' = bytes_of "new" ++ [ch_newline].
Proof.
  assert (Hfit : (length (concat (appended <$>
                    [CallAppend (bytes_of "new"); CallAppendByte ch_newline]))
                  ≤ cap used_buffer.1 used_buffer.2)%nat)
    by (vm_compute; lia).
  split; [exact Hfit|].
  destruct (Reset_reuses_the_array doubling
              [CallAppend (bytes_of "new"); CallAppendByte ch_newline] used_buffer Hfit)
    as (s' & Hs' & Hd & Hc & _ & Hb).
  exists s'. split; [exact Hs'|]. rewrite Hd, Hc, Hb. repeat split.
Defined.

Lemma output_reuses_the_buffer_witness :
  quiet plain_logger = false
  ∧ ∃ h' b',
      output 0 doubling ansi builddir plain_logger (InfoPrefix ansi) (bytes_of "hello")
        main_stack (world stopped sound)
      = Ret (None, with_buf b' plain_logger,
             after_pass h' 1 (bytes_of "[INFO]  hello" ++ [ch_newline]) (world stopped sound))
      ∧ (14 ≤ cap h' b')%nat.
Proof.
  split; [reflexivity|].
  destruct (output_reuses_the_buffer 0 doubling ansi builddir plain_logger (InfoPrefix ansi)
              (bytes_of "hello") main_stack (world stopped sound)
              (bytes_of "[INFO]  hello" ++ [ch_newline]) eq_refl eq_refl)
    as (h' & b' & HO & Hcap & _).
  exists h', b'. split; [exact HO|exact Hcap].
Defined.

(** * More of [log.go] *)

(** ** Which frame a record names *)

Section Frames.

Variable val : Z.
Variable pal : Palette.
Variable pkgdir : list Z.
Context {rt : Runtime}.

Lemma last_element_no_slash p acc : ch_slash ∉ p → last_element p acc = acc ++ p.
Proof.
  revert acc. induction p as [|x p IH]; intros acc Hp; simpl.
  - by rewrite app_nil_r.
  - case_decide as Hx.
    + exfalso. apply Hp. subst x. by left.
    + rewrite IH; [by rewrite <- app_assoc|]. intros H. apply Hp. by right.
Qed.

Lemma last_element_after_slash a b acc :
  last_element (a ++ ch_slash :: b) acc = last_element b [].
Proof.
  revert acc. induction a as [|x a IH]; intros acc.
  - cbn [app last_element]. by destruct (decide (ch_slash = ch_slash)).
  - cbn [app last_element]. destruct (decide (x = ch_slash)); apply IH.
Qed.

(** [filepath.Base] of a file in a directory is the name of the file. *)
Lemma filepath_Base_of dir name :
  name ≠ [] → ch_slash ∉ name → filepath_Base (dir ++ ch_slash :: name) = name.
Proof.
  intros Hne Hns. unfold filepath_Base.
  case_decide as Hp; [by destruct dir|].
  assert (drop_separators (reverse (dir ++ ch_slash :: name))
          = reverse (dir ++ ch_slash :: name)) as ->.
  { rewrite reverse_app, reverse_cons.
    destruct (reverse name) as [|x r] eqn:Hr.
    - exfalso. apply Hne. apply (f_equal reverse) in Hr.
      by rewrite reverse_involutive in Hr.
    - simpl. case_decide as Hx; [|done]. exfalso. apply Hns.
      apply elem_of_reverse. rewrite Hr, Hx. by left. }
  rewrite reverse_involutive, last_element_after_slash, last_element_no_slash by done.
  simpl. by case_decide.
Qed.

Lemma filepath_Base_log_go : filepath_Base (log_go pkgdir) = bytes_of "log.go".
Proof.
  unfold log_go. change (bytes_of "/log.go") with (ch_slash :: bytes_of "log.go").
  apply filepath_Base_of; [done|].
  intros H. apply list_elem_of_In in H. simpl in H.
  repeat (destruct H as [H|H]; [discriminate H|]). exact H.
Qed.

(** The frame [getOccurrence] looks at: [depth + i] frames above [output]. *)
Lemma getOccurrence_lookup l at_ callers i :
  0 ≤ depth l ≤ 2 ^ 62 → 0 ≤ i ≤ 50 →
  getOccurrence pkgdir l (in_output pkgdir at_ :: callers) i
  = match callers !! Z.to_nat (depth l + i) with
    | None => (bytes_of "<unknown file>", bytes_of "<unknown function>", 0, false)
    | Some fr => (filepath_Base (fr_file fr), fr_func fr, fr_line fr, true)
    end.
Proof.
  intros Hd Hi. unfold getOccurrence, runtime_Caller.
  rewrite (int_wrap_small (depth l + 2)) by lia.
  rewrite (int_wrap_small (depth l + 2 + i)) by lia.
  rewrite int_wrap_small by lia. cbv zeta.
  case_decide; [|lia].
  replace (Z.to_nat (depth l + 2 + i + 1 - 1)) with (S (S (Z.to_nat (depth l + i)))) by lia.
  reflexivity.
Qed.

Lemma frame_there_below l callers i :
  0 ≤ depth l ≤ 2 ^ 62 → 0 ≤ i ≤ 50 →
  frame_there pkgdir l callers i = true ↔ (Z.to_nat (depth l + i) < length callers)%nat.
Proof.
  intros Hd Hi. unfold frame_there. rewrite getOccurrence_lookup by done.
  destruct (callers !! Z.to_nat (depth l + i)) as [fr|] eqn:Hfr; simpl.
  - split; [|done]. intros _. by eapply lookup_lt_Some.
  - split; [done|]. intros Hlt. apply lookup_ge_None_1 in Hfr. lia.
Qed.

(** X10. The frame a record names is the one [depth] frames above
    [output].  At depth 0, the value [New] gives, it is [Output] itself, in
    [log.go] at the line of the call to [output]; at depth 1 it is the
    method that called [Output]; from depth 2 on it is the frame
    [depth - 2 + i] of the caller's stack, and the placeholders with
    [ok = false] when the stack is not that deep. *)
Theorem getOccurrence_resolves (l : Logger) (at_ line : Z) (m : Frame)
    (stack : list Frame) (i : Z) :
  (depth l = 0 →
   getOccurrence pkgdir l (in_output pkgdir at_ :: in_Output pkgdir line :: m :: stack) 0
   = (bytes_of "log.go", bytes_of "colored_logging.(*Logger).Output", line, true))
  ∧ (depth l = 1 →
     getOccurrence pkgdir l (in_output pkgdir at_ :: in_Output pkgdir line :: m :: stack) 0
     = (filepath_Base (fr_file m), fr_func m, fr_line m, true))
  ∧ (2 ≤ depth l ≤ 2 ^ 62 → 0 ≤ i ≤ 50 →
     getOccurrence pkgdir l (in_output pkgdir at_ :: in_Output pkgdir line :: m :: stack) i
     = match stack !! Z.to_nat (depth l - 2 + i) with
       | None => (bytes_of "<unknown file>", bytes_of "<unknown function>", 0, false)
       | Some fr => (filepath_Base (fr_file fr), fr_func fr, fr_line fr, true)
       end).
Proof.
  split; [|split].
  - intros Hd. rewrite getOccurrence_lookup by lia. rewrite Hd. simpl.
    by rewrite filepath_Base_log_go.
  - intros Hd. rewrite getOccurrence_lookup by lia. by rewrite Hd.
  - intros Hd Hi. rewrite getOccurrence_lookup by lia.
    replace (Z.to_nat (depth l + i)) with (S (S (Z.to_nat (depth l - 2 + i)))) by lia.
    reflexivity.
Qed.

(** X11. When the stack above [output] has no more than [depth] frames,
    the location of a record is made of the placeholders, with line 0,
    whatever [val] is, and the dump of the call stack is empty. *)
Theorem frame_not_there (l : Logger) (callers : list Frame) :
  0 ≤ depth l ≤ 2 ^ 62 → (length callers ≤ Z.to_nat (depth l))%nat →
  location_text val pal pkgdir l callers
  = when_text (color l) (Ret (colorOrange pal)) +++
    Ret (bytes_of "<unknown function>:<unknown file>:0 ") +++
    when_text (color l) (Ret (colorOff pal))
  ∧ callstack_text val pal pkgdir l callers 50 0 = Ret [].
Proof.
  intros Hd Hlen.
  assert (Hnone : callers !! Z.to_nat (depth l + 0) = None).
  { apply lookup_ge_None_2. lia. }
  split.
  - unfold location_text. rewrite getOccurrence_lookup by lia. rewrite Hnone.
    cbv beta iota. rewrite (AppendInt_repr_digit val 0 0) by lia.
    by destruct (color l).
  - cbn [callstack_text]. rewrite getOccurrence_lookup by lia. by rewrite Hnone.
Qed.

Lemma callstack_text_count l callers :
  0 ≤ depth l ≤ 2 ^ 62 →
  callstack_text val pal pkgdir l callers 50 0
  = lines_text val pal pkgdir l callers
      (Nat.min 50 (length callers - Z.to_nat (depth l))) 0.
Proof.
  intros Hd.
  destruct (callstack_text_lines val pal pkgdir l callers 50 0)
    as (k & Hk & Hyes & Hno & ->).
  f_equal.
  assert (Hup : ∀ j, (j < k)%nat → (Z.to_nat (depth l) + j < length callers)%nat).
  { intros j Hj. specialize (Hyes j Hj).
    apply frame_there_below in Hyes; lia. }
  assert (Hdown : (k < 50)%nat → (length callers ≤ Z.to_nat (depth l) + k)%nat).
  { intros Hlt. specialize (Hno Hlt).
    destruct (decide (Z.to_nat (depth l + (0 + Z.of_nat k)) < length callers)%nat)
      as [Hin|Hout]; [|lia].
    apply (frame_there_below l callers (0 + Z.of_nat k)) in Hin; [|lia..].
    congruence. }
  destruct (decide (k < 50)%nat) as [Hlt|Hge].
  - specialize (Hdown Hlt). destruct k as [|k]; [lia|].
    specialize (Hup k ltac:(lia)). lia.
  - assert (k = 50%nat) as -> by lia. specialize (Hup 49%nat ltac:(lia)). lia.
Qed.

(** X12. The dump of the call stack has one line for every frame from
    [depth] frames above [output] on, and fifty at most: with [n] frames
    above [output], it has [min 50 (n - depth)] lines. *)
Theorem callstack_dump_count (l : Logger) (callers : list Frame) :
  0 ≤ depth l ≤ 2 ^ 62 →
  callstack_text val pal pkgdir l callers 50 0
  = lines_text val pal pkgdir l callers
      (Nat.min 50 (length callers - Z.to_nat (depth l))) 0.
Proof. apply callstack_text_count. Qed.

Lemma last_newline_app (a b : list Z) :
  last a = Some ch_newline → b = [] ∨ last b = Some ch_newline →
  last (a ++ b) = Some ch_newline.
Proof.
  intros Ha [->|Hb]; [by rewrite app_nil_r|]. by rewrite last_app, Hb.
Qed.

Lemma callstack_text_ends l callers n i d :
  color l = false →
  callstack_text val pal pkgdir l callers n i = Ret d →
  d = [] ∨ last d = Some ch_newline.
Proof.
  intros Hc. revert i d. induction n as [|n IH]; intros i d.
  { intros [= <-]. by left. }
  cbn [callstack_text].
  destruct (getOccurrence pkgdir l (in_output pkgdir 277 :: callers) i)
    as [[[file fn] line] ok].
  destruct ok; unfold negb; cbv beta iota; [|intros [= <-]; by left].
  rewrite Hc. unfold when_text. intros H.
  apply then_text_Ret in H as (d0 & d1 & [= <-] & H & ->).
  apply then_text_Ret in H as (d0 & d2 & [= <-] & H & ->).
  apply then_text_Ret in H as (d0 & d3 & [= <-] & H & ->).
  apply then_text_Ret in H as (d0 & d4 & [= <-] & H & ->).
  apply then_text_Ret in H as (d0 & d5 & [= <-] & H & ->).
  apply then_text_Ret in H as (d0 & d6 & [= <-] & H & ->).
  apply then_text_Ret in H as (digits & d7 & _ & H & ->).
  apply then_text_Ret in H as (d0 & d8 & [= <-] & H & ->).
  apply then_text_Ret in H as (d0 & rest & [= <-] & H & ->).
  right. apply IH in H.
  replace ([] ++ [ch_tab] ++ fn ++ [ch_colon] ++ file ++ [ch_colon] ++ digits
             ++ [ch_newline] ++ [] ++ rest)
    with (([ch_tab] ++ fn ++ [ch_colon] ++ file ++ [ch_colon] ++ digits
             ++ [ch_newline]) ++ rest)
    by (repeat (rewrite <- app_assoc; simpl); reflexivity).
  apply last_newline_app; [|done].
  rewrite !app_assoc. apply last_snoc.
Qed.

(** X13. A record ends in a newline whenever the logger is without colour
    or the prefix asks for no dump of the call stack: every record of a
    file destination does, and every record of the severities other than
    TRACE. *)
Theorem record_ends_in_newline (l : Logger) (prefix : Prefix) (now : Time)
    (msg : list Z) (callers : list Frame) (d : list Z) :
  color l = false ∨ Callstack prefix = false →
  record_text val pal pkgdir l prefix now msg callers = Ret d →
  last d = Some ch_newline.
Proof.
  intros Hor H. unfold record_text in H.
  apply then_text_Ret in H as (d1 & d2 & _ & H & ->).
  apply then_text_Ret in H as (d3 & d4 & _ & H & ->).
  apply then_text_Ret in H as (d5 & d6 & _ & H & ->).
  apply then_text_Ret in H as (d0 & d7 & [= <-] & H & ->).
  apply then_text_Ret in H as (nl & cs & Hnl & Hcs & ->).
  rewrite !app_assoc. rewrite <- (app_assoc _ nl cs).
  rewrite <- (app_assoc _ msg (nl ++ cs)). rewrite (app_assoc msg nl cs).
  rewrite last_app.
  assert (Hm : last (msg ++ nl) = Some ch_newline).
  { unfold when_text in Hnl.
    destruct (decide (last msg = Some ch_newline)) as [He|He].
    - rewrite bool_decide_eq_false_2 in Hnl by (intros Hn; by apply Hn).
      injection Hnl as <-. by rewrite app_nil_r.
    - rewrite bool_decide_eq_true_2 in Hnl by done.
      injection Hnl as <-. apply last_snoc. }
  assert (Hc : cs = [] ∨ last cs = Some ch_newline).
  { unfold when_text in Hcs. destruct (Callstack prefix) eqn:Hs.
    - destruct Hor as [Hcol|]; [|done]. by eapply callstack_text_ends.
    - injection Hcs as <-. by left. }
  by rewrite (last_newline_app _ _ Hm Hc).
Qed.

End Frames.

(** ** What the severity methods write *)

Section Methods.

Variable val : Z.
Variable growslice : nat → nat → nat.
Variable pal : Palette.
Variable pkgdir : list Z.
Context {rt : Runtime}.

(** X14. On a logger without a file that is not quiet, an emission that
    returns has read the clock once and made one [Write] of the record to
    the primary destination, whether or not the writer takes it, and the
    error [Output] returns is the one of this [Write]: none from a writer
    that takes the bytes. *)
Theorem Output_reports_write_error (l : Logger) (prefix : Prefix) (msg : list Z)
    (callers : list Frame) (w : World) (e : option error) (l' : Logger) (w' : World) :
  logFile l = None → quiet l = false →
  Output val growslice pal pkgdir l prefix msg callers w = Ret (e, l', w') →
  e = (if broken w (out l) then Some (WriteError (out l)) else None)
  ∧ ticks w' = S (ticks w)
  ∧ ∃ d, record_text val pal pkgdir l prefix (clock w (ticks w)) msg
           (in_Output pkgdir 205 :: callers) = Ret d
         ∧ written w' = written w ++ [(out l, d)].
Proof.
  intros Hf Hq HO. rewrite Output_no_file in HO by done.
  pose proof (output_loud val growslice pal pkgdir l prefix msg
                (in_Output pkgdir 205 :: callers) w Hq) as HL.
  destruct (record_text val pal pkgdir l prefix (clock w (ticks w)) msg
              (in_Output pkgdir 205 :: callers)) as [d| |]; [|congruence..].
  destruct HL as (h' & b' & HL). rewrite HL in HO. injection HO as <- <- <-.
  split; [reflexivity|]. split; [reflexivity|]. by exists d.
Qed.

Lemma Output_when_quiet l prefix msg callers w :
  quiet l = true →
  Output val growslice pal pkgdir l prefix msg callers w = Ret (None, l, w).
Proof.
  intros Hq. unfold Output. destruct (logFile l) as [f|]; cbv zeta;
    rewrite ?output_quiet by done; [|done].
  cbn [mbind run_bind]. by rewrite output_quiet.
Qed.

(** Two emissions of one logger whose records read the same write the
    same. *)
Lemma Output_same_writes l prefix msg callers prefix' msg' callers' w :
  (∀ l0 now line, depth l0 = depth l →
     record_text val pal pkgdir l0 prefix now msg (in_Output pkgdir line :: callers)
     = record_text val pal pkgdir l0 prefix' now msg' (in_Output pkgdir line :: callers')) →
  writes_of (Output val growslice pal pkgdir l prefix msg callers w)
  = writes_of (Output val growslice pal pkgdir l prefix' msg' callers' w).
Proof.
  intros Hrec. destruct (quiet l) eqn:Hq.
  { by rewrite !Output_when_quiet. }
  destruct (logFile l) as [f|] eqn:Hf.
  - pose proof (Output_file val growslice pal pkgdir l prefix msg callers w f Hf Hq) as H1.
    pose proof (Output_file val growslice pal pkgdir l prefix' msg' callers' w f Hf Hq) as H2.
    rewrite <- (Hrec (with_out f (with_color false l))) in H2 by reflexivity.
    rewrite <- (Hrec l) in H2 by reflexivity.
    destruct (record_text val pal pkgdir (with_out f (with_color false l)) prefix
                (clock w (ticks w)) msg (in_Output pkgdir 201 :: callers)) as [fb| |];
      [|by rewrite H1, H2..].
    destruct (broken w f).
    + destruct H1 as (h1 & ->). destruct H2 as (h1' & ->). reflexivity.
    + destruct (record_text val pal pkgdir l prefix (clock w (S (ticks w))) msg
                  (in_Output pkgdir 205 :: callers)) as [pb| |];
        [|by rewrite H1, H2..].
      destruct H1 as (h1 & h2 & b2 & ->). destruct H2 as (h1' & h2' & b2' & ->).
      reflexivity.
  - rewrite !Output_no_file by done.
    pose proof (output_loud val growslice pal pkgdir l prefix msg
                  (in_Output pkgdir 205 :: callers) w Hq) as H1.
    pose proof (output_loud val growslice pal pkgdir l prefix' msg'
                  (in_Output pkgdir 205 :: callers') w Hq) as H2.
    rewrite <- (Hrec l) in H2 by reflexivity.
    destruct (record_text val pal pkgdir l prefix (clock w (ticks w)) msg
                (in_Output pkgdir 205 :: callers)) as [d| |];
      [|by rewrite H1, H2..].
    destruct H1 as (h1 & b1 & ->). destruct H2 as (h2 & b2 & ->). reflexivity.
Qed.

Lemma writes_of_dropped (r : run (option error * Logger * World)) :
  writes_of (dropped r) = writes_of r.
Proof. by destruct r as [[[e l] w]| |]. Qed.

Lemma writes_of_exit (r : run (Logger * World)) :
  writes_of ('(l, w) ← r; Ret (l, os_Exit 1 w)) = writes_of r.
Proof. by destruct r as [[l w]| |]. Qed.

(** The message of a formatted method and of the plain method on the
    expansion read the same, when the expansion does not end in a
    newline. *)
Lemma when_text_false r : when_text false r = Ret [].
Proof. reflexivity. Qed.

Lemma record_text_message l prefix now x callers callers' :
  last x ≠ Some ch_newline →
  when_text (File prefix) (location_text val pal pkgdir l callers)
  = when_text (File prefix) (location_text val pal pkgdir l callers') →
  Callstack prefix = false →
  record_text val pal pkgdir l prefix now x callers
  = record_text val pal pkgdir l prefix now (Sprintln [x]) callers'.
Proof.
  intros Hx Hloc Hcs. unfold record_text. rewrite Hloc, Hcs.
  rewrite (bool_decide_eq_true_2 _ Hx).
  rewrite bool_decide_eq_false_2
    by (intros Hn; apply Hn; unfold Sprintln; apply last_snoc).
  rewrite !when_text_false.
  replace (Ret (Sprintln [x]) +++ Ret [] +++ Ret [])
    with (Ret x +++ when_text true (Ret [ch_newline]) +++ Ret []); [reflexivity|].
  unfold when_text, then_text, Sprintln. simpl. by rewrite app_nil_r.
Qed.

Lemma location_text_above_method l line m m' stack :
  2 ≤ depth l ≤ 2 ^ 62 →
  location_text val pal pkgdir l (in_Output pkgdir line :: m :: stack)
  = location_text val pal pkgdir l (in_Output pkgdir line :: m' :: stack).
Proof.
  intros Hd. unfold location_text. rewrite !getOccurrence_lookup by lia.
  replace (Z.to_nat (depth l + 0)) with (S (S (Z.to_nat (depth l - 2)))) by lia.
  reflexivity.
Qed.

End Methods.

Lemma when_false (p : fmt ()) : when false p = mret ().
Proof. reflexivity. Qed.

Lemma run_bind_ext {A B} (k k' : A → run B) (m m' : run A) :
  m = m' → (∀ x, k x = k' x) → mbind k m = mbind k' m'.
Proof. intros -> Hk. destruct m' as [x| |]; [apply Hk|done..]. Qed.

Section Formatted.

Variable val : Z.
Variable growslice : nat → nat → nat.
Variable pal : Palette.
Variable Sprintf : list Z → list (list Z) → list Z.
Variable pkgdir : list Z.
Context {rt : Runtime}.

(** X15. A formatted method writes what the plain method writes when it is
    given the expansion as its one operand, as long as the expansion does
    not end in a newline: the newline [Sprintln] adds is the one [output]
    would add.  For INFO and WARN this holds on every logger; for ERROR,
    DEBUG and FATAL, whose records name a frame, from depth 2 on, where the
    frame named is above the method. *)
Theorem formatted_as_plain (l : Logger) (format : list Z) (v : list (list Z))
    (stack : list Frame) (w : World) :
  last (Sprintf format v) ≠ Some ch_newline →
  writes_of (Infof val growslice pal Sprintf pkgdir l format v stack w)
  = writes_of (Info val growslice pal pkgdir l [Sprintf format v] stack w)
  ∧ writes_of (Warnf val growslice pal Sprintf pkgdir l format v stack w)
    = writes_of (Warn val growslice pal pkgdir l [Sprintf format v] stack w)
  ∧ (2 ≤ depth l ≤ 2 ^ 62 →
     writes_of (Errorf val growslice pal Sprintf pkgdir l format v stack w)
     = writes_of (Error val growslice pal pkgdir l [Sprintf format v] stack w)
     ∧ writes_of (Debugf val growslice pal Sprintf pkgdir l format v stack w)
       = writes_of (Debug val growslice pal pkgdir l [Sprintf format v] stack w)
     ∧ writes_of (Fatalf val growslice pal Sprintf pkgdir l format v stack w)
       = writes_of (Fatal val growslice pal pkgdir l [Sprintf format v] stack w)).
Proof.
  intros Hx.
  assert (Hplain : ∀ prefix m m', File prefix = false → Callstack prefix = false →
            writes_of (Output val growslice pal pkgdir l prefix (Sprintf format v)
                         (m :: stack) w)
            = writes_of (Output val growslice pal pkgdir l prefix
                           (Sprintln [Sprintf format v]) (m' :: stack) w)).
  { intros prefix m m' Hf Hs. apply Output_same_writes. intros l0 now line _.
    apply record_text_message; [exact Hx| |exact Hs].
    rewrite Hf, !when_text_false. reflexivity. }
  assert (Hloc : ∀ prefix m m', 2 ≤ depth l ≤ 2 ^ 62 → Callstack prefix = false →
            writes_of (Output val growslice pal pkgdir l prefix (Sprintf format v)
                         (m :: stack) w)
            = writes_of (Output val growslice pal pkgdir l prefix
                           (Sprintln [Sprintf format v]) (m' :: stack) w)).
  { intros prefix m m' Hd Hs. apply Output_same_writes. intros l0 now line Hd0.
    apply record_text_message; [exact Hx| |exact Hs].
    rewrite (location_text_above_method val pal pkgdir l0 line m m' stack); [reflexivity|].
    rewrite Hd0. exact Hd. }
  split; [|split].
  - unfold Infof, Info. rewrite !writes_of_dropped. by apply Hplain.
  - unfold Warnf, Warn. rewrite !writes_of_dropped. by apply Hplain.
  - intros Hd. split; [|split].
    + unfold Errorf, Error. rewrite !writes_of_dropped. by apply Hloc.
    + unfold Debugf, Debug, IsDebug. destruct (debug l); [|reflexivity].
      rewrite !writes_of_dropped. by apply Hloc.
    + unfold Fatalf, Fatal. rewrite !writes_of_exit, !writes_of_dropped. by apply Hloc.
Qed.

Lemma format_record_no_frames l prefix now msg callers callers' :
  File prefix = false → Callstack prefix = false →
  format_record val growslice pal pkgdir l prefix now msg callers
  = format_record val growslice pal pkgdir l prefix now msg callers'.
Proof.
  intros Hf Hs. unfold format_record. rewrite Hf, Hs, !when_false. reflexivity.
Qed.

Lemma output_no_frames l prefix msg callers callers' w :
  File prefix = false → Callstack prefix = false →
  output val growslice pal pkgdir l prefix msg callers w
  = output val growslice pal pkgdir l prefix msg callers' w.
Proof.
  intros Hf Hs. unfold output, time_Now. cbv beta iota zeta.
  by rewrite (format_record_no_frames l prefix _ msg callers callers').
Qed.

Lemma Output_no_frames l prefix msg callers callers' w :
  File prefix = false → Callstack prefix = false →
  Output val growslice pal pkgdir l prefix msg callers w
  = Output val growslice pal pkgdir l prefix msg callers' w.
Proof.
  intros Hf Hs. unfold Output. destruct (logFile l) as [f|]; cbv zeta.
  - apply run_bind_ext; [by apply output_no_frames|].
    intros [[e lc] w1]. destruct e; [reflexivity|]. by apply output_no_frames.
  - by apply output_no_frames.
Qed.

(** X16. The records of INFO and WARN name no frame and dump no stack:
    [Info], [Infof], [Warn] and [Warnf] return the same logger and the same
    world from whatever stack they are called, the bytes written and the
    arrays of the buffer included. *)
Theorem Info_ignores_the_stack (l : Logger) (format : list Z) (v : list (list Z))
    (stack stack' : list Frame) (w : World) :
  Info val growslice pal pkgdir l v stack w = Info val growslice pal pkgdir l v stack' w
  ∧ Infof val growslice pal Sprintf pkgdir l format v stack w
    = Infof val growslice pal Sprintf pkgdir l format v stack' w
  ∧ Warn val growslice pal pkgdir l v stack w = Warn val growslice pal pkgdir l v stack' w
  ∧ Warnf val growslice pal Sprintf pkgdir l format v stack w
    = Warnf val growslice pal Sprintf pkgdir l format v stack' w.
Proof.
  split; [|split; [|split]].
  - unfold Info. apply (f_equal dropped). by apply Output_no_frames.
  - unfold Infof. apply (f_equal dropped). by apply Output_no_frames.
  - unfold Warn. apply (f_equal dropped). by apply Output_no_frames.
  - unfold Warnf. apply (f_equal dropped). by apply Output_no_frames.
Qed.

End Formatted.

Lemma frame_not_there_witness :
  0 ≤ depth (Depth 7 plain_logger) ≤ 2 ^ 62
  ∧ (length (in_Output builddir 205 :: in_method builddir "Error" 333 :: main_stack)
     ≤ Z.to_nat (depth (Depth 7 plain_logger)))%nat
  ∧ location_text 2024 ansi builddir (Depth 7 plain_logger)
      (in_Output builddir 205 :: in_method builddir "Error" 333 :: main_stack)
    = Ret (bytes_of "<unknown function>:<unknown file>:0 ").
Proof.
  assert (Hd : 0 ≤ depth (Depth 7 plain_logger) ≤ 2 ^ 62) by (simpl; lia).
  assert (Hn : (length (in_Output builddir 205 :: in_method builddir "Error" 333
                          :: main_stack)
                ≤ Z.to_nat (depth (Depth 7 plain_logger)))%nat) by (simpl; lia).
  split; [exact Hd|]. split; [exact Hn|].
  rewrite (proj1 (frame_not_there 2024 ansi builddir (Depth 7 plain_logger) _ Hd Hn)).
  reflexivity.
Defined.

Lemma callstack_dump_count_witness :
  0 ≤ depth plain_logger ≤ 2 ^ 62
  ∧ callstack_text 0 ansi builddir plain_logger
      (in_Output builddir 205 :: in_method builddir "Trace" 378 :: main_stack) 50 0
    = lines_text 0 ansi builddir plain_logger
        (in_Output builddir 205 :: in_method builddir "Trace" 378 :: main_stack) 3 0.
Proof.
  assert (Hd : 0 ≤ depth plain_logger ≤ 2 ^ 62) by (simpl; lia).
  split; [exact Hd|].
  exact (callstack_dump_count 0 ansi builddir plain_logger
           (in_Output builddir 205 :: in_method builddir "Trace" 378 :: main_stack) Hd).
Defined.

Lemma record_ends_in_newline_witness :
  (color plain_logger = false ∨ Callstack (InfoPrefix ansi) = false)
  ∧ record_text 0 ansi builddir plain_logger (InfoPrefix ansi) (stopped 0)
      (bytes_of "hello") main_stack
    = Ret (bytes_of "[INFO]  hello" ++ [ch_newline])
  ∧ last (bytes_of "[INFO]  hello" ++ [ch_newline]) = Some ch_newline.
Proof.
  split; [by left|]. split; [reflexivity|].
  apply (record_ends_in_newline 0 ansi builddir plain_logger (InfoPrefix ansi) (stopped 0)
           (bytes_of "hello") main_stack); [by left|reflexivity].
Defined.

Lemma Output_reports_write_error_witness :
  logFile plain_logger = None ∧ quiet plain_logger = false
  ∧ error_of (Output 0 doubling ansi builddir plain_logger (InfoPrefix ansi)
                (bytes_of "hello") main_stack (world stopped (λ _, true)))
    = Some (Some (WriteError 1)).
Proof.
  split; [reflexivity|]. split; [reflexivity|].
  assert (∃ e l' w',
            Output 0 doubling ansi builddir plain_logger (InfoPrefix ansi)
              (bytes_of "hello") main_stack (world stopped (λ _, true)) = Ret (e, l', w'))
    as (e & l' & w' & HO) by returns_some.
  destruct (Output_reports_write_error 0 doubling ansi builddir plain_logger (InfoPrefix ansi)
              (bytes_of "hello") main_stack (world stopped (λ _, true)) e l' w'
              eq_refl eq_refl HO) as (He & _).
  rewrite HO. unfold error_of. rewrite He. reflexivity.
Defined.

Lemma formatted_as_plain_witness :
  last (bytes_of "ready") ≠ Some ch_newline
  ∧ writes_of (Infof 0 doubling ansi (λ format _, format) builddir plain_logger
                 (bytes_of "ready") [] main_stack (world stopped sound))
    = Some [(1%nat, bytes_of "[INFO]  ready" ++ [ch_newline])].
Proof.
  assert (Hx : last (bytes_of "ready") ≠ Some ch_newline) by discriminate.
  split; [exact Hx|].
  rewrite (proj1 (formatted_as_plain 0 doubling ansi (λ format _, format) builddir
                    plain_logger (bytes_of "ready") [] main_stack (world stopped sound) Hx)).
  vm_compute. reflexivity.
Defined.

(** ** Where an emission writes *)

Section Destinations.

Variable val : Z.
Variable growslice : nat → nat → nat.
Variable pal : Palette.
Variable Sprintf : list Z → list (list Z) → list Z.
Variable pkgdir : list Z.
Context {rt : Runtime}.

(** X17. [Tracef] is [Trace] on the expansion, called from [Tracef]: with
    debug enabled, on a logger without colour, timestamp and file that is
    not quiet, it writes the TRACE prefix, the expansion, the newline
    [Sprintln] adds whether or not the expansion ends in one, and the dump,
    whose frames are [Output], [Trace], [Tracef] and then the caller's,
    from [depth] frames up: [3 + n - depth] lines for a caller's stack of
    [n] frames, fifty at most. *)
Theorem Tracef_record (l : Logger) (format : list Z) (v : list (list Z))
    (stack : list Frame) (w : World) (d : list Z) :
  debug l = true → quiet l = false → logFile l = None →
  color l = false → timestamp l = false → 0 ≤ depth l ≤ 2 ^ 62 →
  lines_text val pal pkgdir l
    (in_Output pkgdir 205 :: in_method pkgdir "Trace" 378
       :: in_method pkgdir "Tracef" 384 :: stack)
    (Nat.min 50 (3 + length stack - Z.to_nat (depth l))) 0 = Ret d →
  writes_of (Tracef val growslice pal Sprintf pkgdir l format v stack w)
  = Some (written w ++ [(out l, plainTrace ++ Sprintf format v ++ [ch_newline] ++ d)]).
Proof.
  intros Hdb Hq Hf Hc Ht Hd Hlines.
  unfold Tracef, Trace, IsDebug. rewrite Hdb.
  destruct (method_writes val growslice pal pkgdir l (TracePrefix pal)
              (Sprintln [Sprintf format v])
              (in_method pkgdir "Trace" 378 :: in_method pkgdir "Tracef" 384 :: stack) w
              (plainTrace ++ Sprintf format v ++ [ch_newline] ++ d) Hq Hf)
    as (h' & b' & ->); [|reflexivity].
  unfold record_text. rewrite Hc, Ht.
  rewrite bool_decide_eq_false_2
    by (intros Hn; apply Hn; unfold Sprintln; apply last_snoc).
  pose proof (callstack_text_count val pal pkgdir l
                (in_Output pkgdir 205 :: in_method pkgdir "Trace" 378
                   :: in_method pkgdir "Tracef" 384 :: stack) Hd) as HC.
  change (length (in_Output pkgdir 205 :: in_method pkgdir "Trace" 378
                    :: in_method pkgdir "Tracef" 384 :: stack))
    with (3 + length stack)%nat in HC.
  rewrite Hlines in HC. rewrite HC. unfold when_text, then_text, Sprintln. simpl.
  by rewrite <- app_assoc.
Qed.

(** X18. An emission that returns has kept every earlier [Write] and added
    two at most, one for each reading of the clock, none on a quiet logger,
    and each of them to the primary destination or to the file of the
    logger: no other writer is written to. *)
Theorem Output_writes_only_there (l : Logger) (prefix : Prefix) (msg : list Z)
    (callers : list Frame) (w : World) (e : option error) (l' : Logger) (w' : World) :
  Output val growslice pal pkgdir l prefix msg callers w = Ret (e, l', w') →
  ∃ ws, written w' = written w ++ ws
    ∧ ticks w' = (ticks w + length ws)%nat
    ∧ (length ws ≤ 2)%nat
    ∧ (quiet l = true → ws = [])
    ∧ ∀ o x, (o, x) ∈ ws → o = out l ∨ logFile l = Some o.
Proof.
  intros HO. destruct (quiet l) eqn:Hq.
  { rewrite Output_when_quiet in HO by done. injection HO as <- <- <-.
    exists []. rewrite app_nil_r. simpl. repeat split; [lia..|].
    intros o x Hin. by apply elem_of_nil in Hin. }
  destruct (logFile l) as [f|] eqn:Hf.
  - pose proof (Output_file val growslice pal pkgdir l prefix msg callers w f Hf Hq) as HF.
    destruct (record_text val pal pkgdir (with_out f (with_color false l)) prefix
                (clock w (ticks w)) msg (in_Output pkgdir 201 :: callers)) as [fb| |];
      [|congruence..].
    destruct (broken w f).
    + destruct HF as (h1 & HF). rewrite HF in HO. injection HO as <- <- <-.
      exists [(f, fb)]. simpl. repeat split; [lia..|done|].
      intros o x Hin. apply list_elem_of_singleton in Hin. injection Hin as -> ->.
      by right.
    + destruct (record_text val pal pkgdir l prefix (clock w (S (ticks w))) msg
                  (in_Output pkgdir 205 :: callers)) as [pb| |]; [|congruence..].
      destruct HF as (h1 & h2 & b2 & HF). rewrite HF in HO. injection HO as <- <- <-.
      exists [(f, fb); (out l, pb)]. simpl. rewrite <- app_assoc. simpl.
      repeat split; [lia..|done|].
      intros o x Hin. apply elem_of_cons in Hin as [Hin|Hin].
      * injection Hin as -> ->. by right.
      * apply list_elem_of_singleton in Hin. injection Hin as -> ->. by left.
  - rewrite Output_no_file in HO by done.
    pose proof (output_loud val growslice pal pkgdir l prefix msg
                  (in_Output pkgdir 205 :: callers) w Hq) as HL.
    destruct (record_text val pal pkgdir l prefix (clock w (ticks w)) msg
                (in_Output pkgdir 205 :: callers)) as [x0| |]; [|congruence..].
    destruct HL as (h' & b' & HL). rewrite HL in HO. injection HO as <- <- <-.
    exists [(out l, x0)]. simpl. repeat split; [lia..|done|].
    intros o x Hin. apply list_elem_of_singleton in Hin. injection Hin as -> ->.
    by left.
Qed.

End Destinations.

Lemma getOccurrence_resolves_witness :
  depth plain_logger = 0
  ∧ getOccurrence builddir plain_logger
      (in_output builddir 249 :: in_Output builddir 205
         :: in_method builddir "Error" 333 :: main_stack) 0
    = (bytes_of "log.go", bytes_of "colored_logging.(*Logger).Output", 205, true).
Proof.
  split; [reflexivity|].
  exact (proj1 (getOccurrence_resolves builddir plain_logger 249 205
                  (in_method builddir "Error" 333) main_stack 0) eq_refl).
Defined.

Lemma Tracef_record_witness :
  debug (WithDebug plain_logger) = true
  ∧ 0 ≤ depth (WithDebug plain_logger) ≤ 2 ^ 62
  ∧ ∃ d,
      writes_of (Tracef 0 doubling ansi (λ format _, format) builddir
                   (WithDebug plain_logger) (bytes_of "x") [] main_stack
                   (world stopped sound))
      = Some [(1%nat, bytes_of "[TRACE] x" ++ [ch_newline] ++ d)].
Proof.
  assert (Hd : 0 ≤ depth (WithDebug plain_logger) ≤ 2 ^ 62) by (simpl; lia).
  split; [reflexivity|]. split; [exact Hd|].
  assert (∃ d, lines_text 0 ansi builddir (WithDebug plain_logger)
                 (in_Output builddir 205 :: in_method builddir "Trace" 378
                    :: in_method builddir "Tracef" 384 :: main_stack)
                 (Nat.min 50 (3 + length main_stack
                              - Z.to_nat (depth (WithDebug plain_logger)))) 0 = Ret d)
    as (d & Hl) by (vm_compute; eexists; reflexivity).
  exists d.
  rewrite (Tracef_record 0 doubling ansi (λ format _, format) builddir
             (WithDebug plain_logger) (bytes_of "x") [] main_stack (world stopped sound) d
             eq_refl eq_refl eq_refl eq_refl eq_refl Hd Hl).
  reflexivity.
Defined.

Lemma Output_writes_only_there_witness :
  ∃ e l' w' ws,
    Output 0 doubling ansi builddir file_logger (InfoPrefix ansi) (bytes_of "hello")
      main_stack (world stopped sound) = Ret (e, l', w')
    ∧ written w' = written (world stopped sound) ++ ws
    ∧ (length ws ≤ 2)%nat.
Proof.
  assert (∃ e l' w',
            Output 0 doubling ansi builddir file_logger (InfoPrefix ansi)
              (bytes_of "hello") main_stack (world stopped sound) = Ret (e, l', w'))
    as (e & l' & w' & HO) by returns_some.
  destruct (Output_writes_only_there 0 doubling ansi builddir file_logger (InfoPrefix ansi)
              (bytes_of "hello") main_stack (world stopped sound) e l' w' HO)
    as (ws & Hw & _ & Hlen & _).
  exists e, l', w', ws. split; [exact HO|]. split; [exact Hw|exact Hlen].
Defined.

(** * [WithLogFile] on a file that cannot be opened *)

Section Open_failure.

Variable val : Z.
Variable growslice : nat → nat → nat.
Variable pal : Palette.
Variable pkgdir : list Z.
Context {rt : Runtime}.










End Open_failure.


